(** * OptiVerse: the portfolio engine and its callers

    A shallow embedding of the quantitative core of the repository
    ([src/lib/portfolio.ts]: return series, covariance estimation, portfolio
    metrics, the random-search optimizer, the efficient-frontier sampler and
    the demonstration data) and of the pure logic of the components that call
    it (the asset picker, the metrics panel and the allocation chart).

    JavaScript numbers are IEEE 754 binary64 values; they are modelled by
    Rocq's primitive floats, whose operations are the same binary64
    operations (round to nearest, ties to even).  Arrays are lists.  A read
    past the end of a numeric array yields [undefined], which every
    arithmetic operator and every comparison coerces to NaN; a property read
    on [undefined] throws a [TypeError].  [Math.random()] is a stream of
    numbers, read at a position that the loops advance. *)

From Stdlib Require Import String ZArith Zpower List Lia Bool Floats QArith Sorted.
Import ListNotations.

Set Warnings "-inexact-float,-abstract-large-number".
Local Open Scope float_scope.

(** ** The fragment of JavaScript the engine uses *)

Module JS.

(** Completion of a call: a value, or the one exception the engine can
    raise (a property read on [undefined]). *)
Inductive result (A : Type) : Type :=
| Ok (a : A)
| TypeError.
Arguments Ok {A} a.
Arguments TypeError {A}.

Definition bind {A B} (r : result A) (k : A -> result B) : result B :=
  match r with
  | Ok a => k a
  | TypeError => TypeError
  end.

(** [arr[i]] on a [number[]] in an arithmetic position. *)
Definition idx (arr : list float) (i : nat) : float := nth i arr nan.

(** [arr[i]] on an array of objects, followed by a property read. *)
Definition at_ {A} (arr : list A) (i : nat) : result A :=
  match nth_error arr i with
  | Some a => Ok a
  | None => TypeError
  end.

(** [x > y]. *)
Definition gt (x y : float) : bool := y <? x.

(** [arr.length] as a number, and integer loop counters as numbers: exact
    below 2^53, which array lengths and the counters of the loops are. *)
Definition ofZ (z : Z) : float :=
  match z with
  | Zneg _ => - of_uint63 (Uint63.of_Z (- z))
  | _ => of_uint63 (Uint63.of_Z z)
  end.
Definition ofNat (n : nat) : float := ofZ (Z.of_nat n).
Definition len {A} (arr : list A) : float := ofNat (length arr).

(** [arr.reduce((sum, ret) => sum + ret, 0)]. *)
Definition sum (arr : list float) : float :=
  fold_left (fun sum ret => sum + ret) arr 0.

(** [for (let i = start; i < start + count; i++) body], threading the
    variables the body assigns. *)
Fixpoint for_ {St} (start count : nat) (body : nat -> St -> St) (s : St)
  : St :=
  match count with
  | O => s
  | S count' => for_ (S start) count' body (body start s)
  end.

(** The same loop when the body may throw. *)
Fixpoint forM {St} (start count : nat) (body : nat -> St -> result St)
  (s : St) : result St :=
  match count with
  | O => Ok s
  | S count' => bind (body start s) (forM (S start) count' body)
  end.

End JS.
Import JS.

Notation "x <- c1 ;; c2" := (JS.bind c1 (fun x => c2))
  (at level 61, c1 at next level, right associativity).

(** ** Data model *)

Record Asset := {
  symbol : string;
  name : string;
  prices : list float;
  returns : list float;
  weight : option float
}.

Record PortfolioMetrics := {
  expectedReturn : float;
  volatility : float;
  sharpeRatio : float;
  beta : float;
  var95 : float;
  maxDrawdown : float;
  weights : list float
}.

Record EfficientFrontierPoint := {
  fp_return : float;
  fp_volatility : float;
  fp_sharpeRatio : float;
  fp_weights : list float
}.

(** ** Daily returns from prices *)

(** The loop of [calculateReturns] and the normalization of a sampled weight
    vector use nothing of a number but subtraction, addition and division.
    They are written once over the arithmetic, so that the binary64
    functions below and their exact (rational) readings are the same code. *)
Section Arithmetic.
Context {N : Type} (add sub div : N -> N -> N) (zero undef : N).

Definition returnsOver (prices : list N) : list N :=
  for_ 1 (length prices - 1)
    (fun i returns =>
       returns ++ [div (sub (nth i prices undef) (nth (i - 1) prices undef))
                     (nth (i - 1) prices undef)])
    [].

(** [const sum = weights.reduce((acc, w) => acc + w, 0);
     weights.map(w => w / sum)] *)
Definition normalizeOver (weights : list N) : list N :=
  let sum := fold_left (fun acc w => add acc w) weights zero in
  map (fun w => div w sum) weights.

End Arithmetic.

Definition calculateReturns (prices : list float) : list float :=
  returnsOver PrimFloat.sub PrimFloat.div nan prices.

(** ** Annualized sample covariance matrix *)

(** [assetReturns.reduce((sum, ret) => sum + ret, 0) / assetReturns.length] *)
Definition mean (assetReturns : list float) : float :=
  JS.sum assetReturns / len assetReturns.

Definition calculateCovarianceMatrix (returns : list (list float))
  : result (list (list float)) :=
  let n := length returns in
  r0 <- at_ returns 0 ;;
  let m := length r0 in
  let means := map mean returns in
  forM 0 n
    (fun i covMatrix =>
       ri <- at_ returns i ;;
       row <- forM 0 n
                (fun j row =>
                   rj <- at_ returns j ;;
                   let covariance :=
                     for_ 0 m
                       (fun k covariance =>
                          covariance
                          + (idx ri k - idx means i) * (idx rj k - idx means j))
                       0 in
                   Ok (row ++ [covariance / (ofNat m - 1) * 252]))
                [] ;;
       Ok (covMatrix ++ [row]))
    [].

(** ** Portfolio metrics *)

(** Period-by-period portfolio returns. *)
Definition calculatePortfolioReturns (returns : list (list float))
  (weights : list float) : result (list float) :=
  r0 <- at_ returns 0 ;;
  let numPeriods := length r0 in
  forM 0 numPeriods
    (fun i portfolioReturns =>
       periodReturn <- forM 0 (length weights)
                         (fun j periodReturn =>
                            rj <- at_ returns j ;;
                            Ok (periodReturn + idx weights j * idx rj i))
                         0 ;;
       Ok (portfolioReturns ++ [periodReturn]))
    [].

(** Beta against the market series. *)
Definition calculateBeta (portfolioReturns marketReturns : list float) : float :=
  let portfolioMean := mean portfolioReturns in
  let marketMean := mean marketReturns in
  let '(covariance, marketVariance) :=
    for_ 0 (length portfolioReturns)
      (fun i '(covariance, marketVariance) =>
         let portfolioDeviation := idx portfolioReturns i - portfolioMean in
         let marketDeviation := idx marketReturns i - marketMean in
         (covariance + portfolioDeviation * marketDeviation,
          marketVariance + marketDeviation * marketDeviation))
      (0, 0) in
  covariance / marketVariance.

(** The weighted portfolio value series over the price histories. *)
Definition portfolioValueSeries (assets : list Asset) (weights : list float)
  : result (list float) :=
  a0 <- at_ assets 0 ;;
  let numPeriods := length (prices a0) in
  forM 0 numPeriods
    (fun i portfolioValues =>
       portfolioValue <- forM 0 (length assets)
                           (fun j portfolioValue =>
                              aj <- at_ assets j ;;
                              Ok (portfolioValue
                                  + idx weights j * idx (prices aj) i))
                           0 ;;
       Ok (portfolioValues ++ [portfolioValue]))
    [].

(** One turn of the drawdown loop over [(maxDrawdown, peak)]. *)
Definition drawdownStep (portfolioValues : list float) (i : nat)
  (st : float * float) : float * float :=
  let '(maxDrawdown, peak) := st in
  let peak := if gt (idx portfolioValues i) peak
              then idx portfolioValues i else peak in
  let drawdown := (peak - idx portfolioValues i) / peak in
  let maxDrawdown := if gt drawdown maxDrawdown then drawdown else maxDrawdown in
  (maxDrawdown, peak).

Definition drawdownOf (portfolioValues : list float) : float :=
  fst (for_ 1 (length portfolioValues - 1) (drawdownStep portfolioValues)
         (0, idx portfolioValues 0)).

Definition calculateMaxDrawdown (assets : list Asset) (weights : list float)
  : result float :=
  portfolioValues <- portfolioValueSeries assets weights ;;
  Ok (drawdownOf portfolioValues).

(** [weights.reduce((sum, weight, i) => sum + weight * meanReturns[i], 0)] *)
Definition weightedSum (weights meanReturns : list float) : float :=
  fold_left (fun sum '(i, weight) => sum + weight * idx meanReturns i)
    (combine (seq 0 (length weights)) weights) 0.

Definition riskFreeRate : float := 0.02.

(** The double loop accumulating the portfolio variance. *)
Definition portfolioVarianceOf (weights : list float)
  (covMatrix : list (list float)) : result float :=
  forM 0 (length weights)
    (fun i portfolioVariance =>
       forM 0 (length weights)
         (fun j portfolioVariance =>
            ci <- at_ covMatrix i ;;
            Ok (portfolioVariance + idx weights i * idx weights j * idx ci j))
         portfolioVariance)
    0.

Definition calculatePortfolioMetrics (assets : list Asset)
  (weights : list float) (marketReturns : list float)
  : result PortfolioMetrics :=
  let returns := map returns assets in
  let meanReturns :=
    map (fun assetReturns => JS.sum assetReturns / len assetReturns * 252)
      returns in
  covMatrix <- calculateCovarianceMatrix returns ;;
  let expectedReturn := weightedSum weights meanReturns in
  portfolioVariance <- portfolioVarianceOf weights covMatrix ;;
  let volatility := sqrt portfolioVariance in
  let sharpeRatio := (expectedReturn - riskFreeRate) / volatility in
  portfolioReturns <- calculatePortfolioReturns returns weights ;;
  let beta := calculateBeta portfolioReturns marketReturns in
  let var95 := (- 1.645) * volatility / sqrt 252 in
  maxDrawdown <- calculateMaxDrawdown assets weights ;;
  Ok {| expectedReturn := expectedReturn;
        volatility := volatility;
        sharpeRatio := sharpeRatio;
        beta := beta;
        var95 := var95;
        maxDrawdown := maxDrawdown;
        weights := weights |}.

(** ** Random search *)

(** A realization of the random stream: [rand k] is the value returned by
    the [k]-th call of [Math.random()] (counted from 0).  The position in the
    stream is threaded through the loops. *)
Definition Random := nat -> float.

(** [Array.from({ length }, () => Math.random())] then the normalization
    [weights.map(w => w / sum)], starting at position [pos]. *)
Definition randomWeights (rand : Random) (pos numAssets : nat) : list float :=
  let weights := map rand (seq pos numAssets) in
  normalizeOver PrimFloat.add PrimFloat.div 0 weights.

(** First asset's return series, as [assets[0].returns]. *)
Definition firstReturns (assets : list Asset) : result (list float) :=
  a0 <- at_ assets 0 ;; Ok (returns a0).

Definition optimizeStep (assets : list Asset) (rand : Random) (iteration : nat)
  (st : nat * float * list float) : result (nat * float * list float) :=
  let '(pos, bestSharpe, bestWeights) := st in
  let numAssets := length assets in
  let normalizedWeights := randomWeights rand pos numAssets in
  market <- firstReturns assets ;;
  metrics <- calculatePortfolioMetrics assets normalizedWeights market ;;
  if gt (sharpeRatio metrics) bestSharpe
  then Ok ((pos + numAssets)%nat, sharpeRatio metrics, normalizedWeights)
  else Ok ((pos + numAssets)%nat, bestSharpe, bestWeights).

(** The optimizer with its iteration budget as a parameter. *)
Definition optimizeWith (budget : nat) (assets : list Asset) (rand : Random)
  : result PortfolioMetrics :=
  st <- forM 0 budget (optimizeStep assets rand) (0%nat, neg_infinity, []) ;;
  let '(_, _, bestWeights) := st in
  market <- firstReturns assets ;;
  calculatePortfolioMetrics assets bestWeights market.

Definition optimizePortfolio : list Asset -> Random -> result PortfolioMetrics :=
  optimizeWith 10000.

(** ** Efficient frontier *)

Definition targetReturnOf (numPoints : Z) (i : nat) : float :=
  0.05 + (ofNat i / (ofZ numPoints - 1)) * 0.25.

Definition frontierStep (assets : list Asset) (rand : Random)
  (targetReturn : float) (iteration : nat) (st : nat * float * list float)
  : result (nat * float * list float) :=
  let '(pos, bestVolatility, bestWeights) := st in
  let normalizedWeights := randomWeights rand pos (length assets) in
  market <- firstReturns assets ;;
  metrics <- calculatePortfolioMetrics assets normalizedWeights market ;;
  if (abs (expectedReturn metrics - targetReturn) <? 0.01)
     && (volatility metrics <? bestVolatility)
  then Ok ((pos + length assets)%nat, volatility metrics, normalizedWeights)
  else Ok ((pos + length assets)%nat, bestVolatility, bestWeights).

Definition frontierPointStep (perPoint : nat) (assets : list Asset)
  (rand : Random) (numPoints : Z) (i : nat)
  (st : nat * list EfficientFrontierPoint)
  : result (nat * list EfficientFrontierPoint) :=
  let '(pos, frontierPoints) := st in
  let targetReturn := targetReturnOf numPoints i in
  st' <- forM 0 perPoint (frontierStep assets rand targetReturn)
           (pos, infinity, []) ;;
  let '(pos', _, bestWeights) := st' in
  if (0 <? length bestWeights)%nat
  then
    market <- firstReturns assets ;;
    metrics <- calculatePortfolioMetrics assets bestWeights market ;;
    Ok (pos', frontierPoints ++ [{| fp_return := expectedReturn metrics;
                                    fp_volatility := volatility metrics;
                                    fp_sharpeRatio := sharpeRatio metrics;
                                    fp_weights := bestWeights |}])
  else Ok (pos', frontierPoints).

(** [Array.prototype.sort(comparefn)]: a stable sort that puts [a] after [b]
    when [comparefn(a, b) > 0].  Insertion from the right is one such sort;
    for a comparator that is consistent on the array every conforming sort
    returns the same array. *)
Section Sort.
Context {A : Type} (comparefn : A -> A -> float).

Fixpoint insertSorted (a : A) (sorted : list A) : list A :=
  match sorted with
  | [] => [a]
  | b :: rest =>
      if gt (comparefn a b) 0 then b :: insertSorted a rest
      else a :: b :: rest
  end.

Definition sort (arr : list A) : list A := fold_right insertSorted [] arr.
End Sort.

Definition byVolatility (a b : EfficientFrontierPoint) : float :=
  fp_volatility a - fp_volatility b.

Definition frontierWith (perPoint : nat) (assets : list Asset) (numPoints : Z)
  (rand : Random) : result (list EfficientFrontierPoint) :=
  st <- forM 0 (Z.to_nat numPoints)
          (frontierPointStep perPoint assets rand numPoints) (0%nat, []) ;;
  Ok (sort byVolatility (snd st)).

Definition generateEfficientFrontier
  : list Asset -> Z -> Random -> result (list EfficientFrontierPoint) :=
  frontierWith 1000.

(** ** Shapes of binary64 values used in the proofs *)

(** A rounded result whose sign is [s]. *)
Inductive signed (s : bool) : spec_float -> Prop :=
| signed_zero : signed s (S754_zero s)
| signed_inf : signed s (S754_infinity s)
| signed_fin m e : signed s (S754_finite s m e).

(** The same, zero excluded. *)
Inductive signed_nz (s : bool) : spec_float -> Prop :=
| snz_inf : signed_nz s (S754_infinity s)
| snz_fin m e : signed_nz s (S754_finite s m e).

(** [0 <= x && x < Infinity]: a finite number that is not negative. *)
Definition finite_nonneg (x : float) : bool := (0 <=? x) && (x <? infinity).

(** ** Readings of the specification, to compare the code with *)


(** Sum over the periods of the products of the deviations of two return
    series from their own means, accumulated in period order. *)
Definition deviationProducts (x y : list float) : float :=
  fold_left (fun acc k => acc + (idx x k - mean x) * (idx y k - mean y))
    (seq 0 (length x)) 0.

(** Unbiased sample covariance (divide by [m - 1]) and its annualization. *)
Definition sampleCovariance (x y : list float) : float :=
  deviationProducts x y / (len x - 1).

Definition annualizedCovariance (x y : list float) : float :=
  sampleCovariance x y * 252.

(** Annualized sample variance of one series, from its squared deviations. *)
Definition annualizedVariance (x : list float) : float :=
  fold_left (fun acc k => acc + (idx x k - mean x) * (idx x k - mean x))
    (seq 0 (length x)) 0 / (len x - 1) * 252.

(** Entry [(i, j)] of a matrix, as [covMatrix[i][j]] reads it. *)
Definition entry (covMatrix : list (list float)) (i j : nat) : float :=
  idx (nth i covMatrix []) j.

(** Entry [(i, j)] as the three nested loops of [calculateCovarianceMatrix]
    compute it, for series of [m] periods. *)
Definition covEntry (returns : list (list float)) (m i j : nat) : float :=
  for_ 0 m
    (fun k covariance =>
       covariance
       + (idx (nth i returns []) k - idx (map mean returns) i)
         * (idx (nth j returns []) k - idx (map mean returns) j)) 0
  / (ofNat m - 1) * 252.

(** An asset record built from a price history the way [createDefaultAssets]
    builds one: the returns are computed from the prices, no weight is set. *)
Definition assetOf (symbol name : string) (prices : list float) : Asset :=
  {| symbol := symbol; name := name; prices := prices;
     returns := calculateReturns prices; weight := None |}.

(** [assets[j].prices], for an index below [assets.length]. *)
Definition pricesOf (assets : list Asset) (j : nat) : list float :=
  match nth_error assets j with
  | Some a => prices a
  | None => []
  end.

(** [value[t]]: the sum over the assets of [weight[j] * price[j][t]]. *)
Definition valueAt (assets : list Asset) (weights : list float) (t : nat)
  : float :=
  fold_left (fun acc j => acc + idx weights j * idx (pricesOf assets j) t)
    (seq 0 (length assets)) 0.

(** The running peak of [values[0..t]]. *)
Definition runningPeak (values : list float) (t : nat) : float :=
  fold_left (fun peak i => if gt (idx values i) peak then idx values i else peak)
    (seq 1 t) (idx values 0).

(** Drawdown at [t]: [(peak - value[t]) / peak]. *)
Definition drawdownAt (values : list float) (t : nat) : float :=
  (runningPeak values t - idx values t) / runningPeak values t.

(** The largest drawdown over [t = 1 .. T - 1], starting from 0. *)
Definition largestDrawdown (values : list float) : float :=
  fold_left (fun best t => if gt (drawdownAt values t) best
                           then drawdownAt values t else best)
    (seq 1 (length values - 1)) 0.



(** ** The candidates of a search *)

(** An optimizer run over [assets] draws its [k]-th candidate from position
    [k * assets.length] of the stream. *)
Definition candidate (assets : list Asset) (rand : Random) (k : nat)
  : list float :=
  randomWeights rand (k * length assets) (length assets).

(** The metrics the loops compute for a weight vector:
    [calculatePortfolioMetrics(assets, weights, assets[0].returns)]. *)
Definition evaluate (assets : list Asset) (ws : list float)
  : result PortfolioMetrics :=
  market <- firstReturns assets ;;
  calculatePortfolioMetrics assets ws market.

(** The tolerance test of the frontier search:
    [Math.abs(metrics.expectedReturn - targetReturn) < 0.01]. *)
Definition withinTolerance (metrics : PortfolioMetrics) (targetReturn : float)
  : bool :=
  abs (expectedReturn metrics - targetReturn) <? 0.01.

(** Whether one of the [perPoint] candidates sampled for target [i] passes
    the tolerance test.  Target [i] samples the candidates
    [i * perPoint .. i * perPoint + perPoint - 1] of the run. *)
Definition hasCandidate (perPoint : nat) (assets : list Asset) (rand : Random)
  (numPoints : Z) (i : nat) : bool :=
  existsb
    (fun k =>
       match evaluate assets (candidate assets rand (i * perPoint + k)) with
       | Ok m => withinTolerance m (targetReturnOf numPoints i)
       | TypeError => false
       end)
    (seq 0 perPoint).

(** What the frontier records of a candidate it keeps for target [i]. *)
Definition pointOf (perPoint : nat) (assets : list Asset) (rand : Random)
  (numPoints : Z) (bound : nat) (p : EfficientFrontierPoint) : Prop :=
  exists i k m,
    (i < bound)%nat /\ (k < perPoint)%nat /\
    fp_weights p = candidate assets rand (i * perPoint + k) /\
    evaluate assets (fp_weights p) = Ok m /\
    fp_return p = expectedReturn m /\
    fp_volatility p = volatility m /\
    fp_sharpeRatio p = sharpeRatio m /\
    withinTolerance m (targetReturnOf numPoints i) = true /\
    (volatility m <? infinity) = true.

(** Ascending by volatility. *)
Definition volatilityLe (a b : EfficientFrontierPoint) : Prop :=
  (fp_volatility a <=? fp_volatility b) = true.

(** ** Inputs for the examples *)

(** A fixed stream of draws in [0, 1), to run the searches on. *)
Definition sampleRandom : Random :=
  fun k => ofZ ((Z.of_nat k * 7919 + 13) mod 1000) / 1000.

Definition sampleAssets : list Asset :=
  [assetOf "A" "Asset A" [100; 101; 103; 102];
   assetOf "B" "Asset B" [50; 50.1; 50.05; 50.2]].

(** ** Loop invariants of the searches *)

(** What the best-so-far variables hold after [t] iterations. *)
Definition bestSoFar (assets : list Asset) (rand : Random) (t : nat)
  (st : nat * float * list float) : Prop :=
  let '(pos, bestSharpe, bestWeights) := st in
  pos = (t * length assets)%nat /\
  (forall j mj, (j < t)%nat -> evaluate assets (candidate assets rand j) = Ok mj ->
                (bestSharpe <? sharpeRatio mj) = false) /\
  ((bestSharpe = neg_infinity /\ bestWeights = []) \/
   (exists k mk, (k < t)%nat /\
      evaluate assets (candidate assets rand k) = Ok mk /\
      bestWeights = candidate assets rand k /\
      bestSharpe = sharpeRatio mk /\
      forall j mj, (j < k)%nat -> evaluate assets (candidate assets rand j) = Ok mj ->
                   (sharpeRatio mk <=? sharpeRatio mj) = false)).

(** What the inner loop holds after [t] candidates of the target whose
    first candidate is number [base]. *)
Definition keptSoFar (assets : list Asset) (rand : Random) (target : float)
  (base t : nat) (st : nat * float * list float) : Prop :=
  let '(pos, bestVolatility, bestWeights) := st in
  pos = ((base + t) * length assets)%nat /\
  (bestWeights = [] \/
   exists k mk, (k < t)%nat /\
     evaluate assets (candidate assets rand (base + k)) = Ok mk /\
     bestWeights = candidate assets rand (base + k) /\
     withinTolerance mk target = true /\
     (volatility mk <? infinity) = true).

(** What the outer loop holds after [i] targets. *)
Definition frontierSoFar (perPoint : nat) (assets : list Asset) (rand : Random)
  (numPoints : Z) (i : nat) (st : nat * list EfficientFrontierPoint) : Prop :=
  let '(pos, frontierPoints) := st in
  pos = (i * perPoint * length assets)%nat /\
  Forall (pointOf perPoint assets rand numPoints i) frontierPoints /\
  (length frontierPoints
   <= length (filter (hasCandidate perPoint assets rand numPoints) (seq 0 i)))%nat.

(** ** Demonstration data *)

(** [Math.max(a, b)]: NaN when either argument is; of two zeros, the positive
    one unless both are negative. *)
Definition mathMax (a b : float) : float :=
  if is_nan a || is_nan b then nan
  else if a <? b then b
  else if b <? a then a
  else if a =? 0 then a + b
  else a.

(** [generateMockPriceData(initialPrice, days)], [days] an integer.  The
    [i]-th turn of the loop makes the one call of [Math.random()] numbered
    [pos + i - 1]. *)
Definition generateMockPriceData (rand : Random) (pos : nat)
  (initialPrice : float) (days : nat) : list float :=
  for_ 1 (days - 1)
    (fun i prices =>
       let drift := 0.0004 in
       let volatility := 0.015 in
       let randomShock := (rand (pos + i - 1)%nat - 0.5) * 2 * volatility in
       let nextPrice := idx prices (i - 1) * (1 + drift + randomShock) in
       prices ++ [mathMax nextPrice 0.01])
    [initialPrice].

(** One row of the table in [createDefaultAssets]. *)
Record AssetDatum := {
  ad_symbol : string;
  ad_name : string;
  ad_basePrice : float;
  ad_volatility : float
}.

Definition assetData : list AssetDatum :=
  [ {| ad_symbol := "SPY"; ad_name := "S&P 500 ETF";
       ad_basePrice := 450; ad_volatility := 0.015 |};
    {| ad_symbol := "QQQ"; ad_name := "Nasdaq ETF";
       ad_basePrice := 380; ad_volatility := 0.020 |};
    {| ad_symbol := "TLT"; ad_name := "Long-Term Treasury";
       ad_basePrice := 100; ad_volatility := 0.012 |};
    {| ad_symbol := "GLD"; ad_name := "Gold ETF";
       ad_basePrice := 180; ad_volatility := 0.018 |};
    {| ad_symbol := "EEM"; ad_name := "Emerging Markets";
       ad_basePrice := 50; ad_volatility := 0.022 |};
    {| ad_symbol := "VNQ"; ad_name := "Real Estate ETF";
       ad_basePrice := 90; ad_volatility := 0.016 |};
    {| ad_symbol := "EFA"; ad_name := "EAFE ETF";
       ad_basePrice := 75; ad_volatility := 0.017 |};
    {| ad_symbol := "VTI"; ad_name := "Total Stock Market";
       ad_basePrice := 230; ad_volatility := 0.015 |} ].

(** [assetData.map(asset => ...)]: the rows are visited in order, each
    drawing the 251 random numbers of its 252-day price history. *)
Fixpoint createAssets (rand : Random) (pos : nat) (data : list AssetDatum)
  : list Asset :=
  match data with
  | [] => []
  | asset :: rest =>
      let prices := generateMockPriceData rand pos (ad_basePrice asset) 252 in
      let returns := calculateReturns prices in
      {| symbol := ad_symbol asset; name := ad_name asset;
         prices := prices; returns := returns; weight := None |}
      :: createAssets rand (pos + 251) rest
  end.

Definition createDefaultAssets (rand : Random) (pos : nat) : list Asset :=
  createAssets rand pos assetData.

(** Period-by-period portfolio return [sum_j weight[j] * return[j][t]],
    accumulated in asset order. *)
Definition periodReturnAt (returns : list (list float)) (ws : list float)
  (t : nat) : float :=
  fold_left (fun acc j => acc + idx ws j * idx (nth j returns []) t)
    (seq 0 (length ws)) 0.

(** Sum of the squared deviations of a series from its mean, in order. *)
Definition squaredDeviations (r : list float) : float :=
  fold_left (fun acc i => acc + (idx r i - mean r) * (idx r i - mean r))
    (seq 0 (length r)) 0.

(** The price one turn of the loop of [generateMockPriceData] appends. *)
Definition mockStep (rand : Random) (pos i : nat) (prices : list float)
  : float :=
  mathMax (idx prices (i - 1)
           * (1 + 0.0004 + (rand (pos + i - 1)%nat - 0.5) * 2 * 0.015)) 0.01.

(** A binary64 value that is zero or negative. *)
Inductive nonpositive : spec_float -> Prop :=
| np_zero s : nonpositive (S754_zero s)
| np_inf : nonpositive (S754_infinity true)
| np_fin m e : nonpositive (S754_finite true m e).

(** ** The asset picker ([AssetSelector.tsx]) *)

Record AssetInfo := {
  ai_symbol : string;
  ai_name : string;
  ai_category : string
}.

Definition ASSET_UNIVERSE : list AssetInfo :=
  [ {| ai_symbol := "SPY"; ai_name := "S&P 500 ETF"; ai_category := "equity" |};
    {| ai_symbol := "QQQ"; ai_name := "Nasdaq 100 ETF"; ai_category := "equity" |};
    {| ai_symbol := "VTI"; ai_name := "Total Stock Market ETF";
       ai_category := "equity" |};
    {| ai_symbol := "IWM"; ai_name := "Russell 2000 ETF"; ai_category := "equity" |};
    {| ai_symbol := "TLT"; ai_name := "Long-Term Treasury ETF";
       ai_category := "bond" |};
    {| ai_symbol := "IEF"; ai_name := "Intermediate Treasury ETF";
       ai_category := "bond" |};
    {| ai_symbol := "LQD"; ai_name := "Corporate Bond ETF"; ai_category := "bond" |};
    {| ai_symbol := "HYG"; ai_name := "High Yield Bond ETF"; ai_category := "bond" |};
    {| ai_symbol := "GLD"; ai_name := "Gold ETF"; ai_category := "commodity" |};
    {| ai_symbol := "SLV"; ai_name := "Silver ETF"; ai_category := "commodity" |};
    {| ai_symbol := "USO"; ai_name := "Oil ETF"; ai_category := "commodity" |};
    {| ai_symbol := "EEM"; ai_name := "Emerging Markets ETF";
       ai_category := "international" |};
    {| ai_symbol := "EFA"; ai_name := "EAFE ETF"; ai_category := "international" |};
    {| ai_symbol := "VNQ"; ai_name := "Real Estate ETF"; ai_category := "sector" |};
    {| ai_symbol := "XLF"; ai_name := "Financial Sector ETF";
       ai_category := "sector" |};
    {| ai_symbol := "XLK"; ai_name := "Technology Sector ETF";
       ai_category := "sector" |} ].

(** [assets.some(a => a.symbol === symbol)] *)
Definition isSelected (assets : list Asset) (sym : string) : bool :=
  existsb (fun a => String.eqb (symbol a) sym) assets.

(** [prices.slice(1).map((price, i) => (price - prices[i]) / prices[i])] *)
Definition returnsInline (prices : list float) : list float :=
  map (fun '(i, price) => (price - idx prices i) / idx prices i)
    (combine (seq 0 (length (tl prices))) (tl prices)).

(** [addAssetFromUniverse(assetInfo)].  The result is the list handed to
    [onAssetsChange], or [None] when the handler returns without calling it.
    [createDefaultAssets()] makes the calls of [Math.random()] numbered
    [pos .. pos + 2007]; the price variation makes the following ones, one
    per price of the template. *)
Definition addAssetFromUniverse (assets : list Asset) (rand : Random)
  (pos : nat) (assetInfo : AssetInfo) : result (option (list Asset)) :=
  if isSelected assets (ai_symbol assetInfo) then Ok None
  else
    let defaultAssets := createDefaultAssets rand pos in
    template <- at_ defaultAssets 0 ;;
    let prices :=
      map (fun '(i, p) => p * (0.8 + rand (pos + 2008 + i)%nat * 0.4))
        (combine (seq 0 (length (prices template))) (prices template)) in
    let newAsset :=
      {| symbol := ai_symbol assetInfo; name := ai_name assetInfo;
         prices := prices; returns := returnsInline prices; weight := None |} in
    Ok (Some (assets ++ [newAsset])).

(** [removeAsset(symbol)]: the list handed to [onAssetsChange]. *)
Definition removeAsset (assets : list Asset) (sym : string) : list Asset :=
  filter (fun a => negb (String.eqb (symbol a) sym)) assets.

(** [availableAssets]: the universe, narrowed to the selected category when
    one is set (a category that is [null] or the empty string is not), minus
    the assets already selected. *)
Definition availableAssets (assets : list Asset)
  (selectedCategory : option string) : list AssetInfo :=
  let filteredAssets :=
    match selectedCategory with
    | Some category =>
        if String.eqb category "" then ASSET_UNIVERSE
        else filter (fun a => String.eqb (ai_category a) category) ASSET_UNIVERSE
    | None => ASSET_UNIVERSE
    end in
  filter (fun a => negb (isSelected assets (ai_symbol a))) filteredAssets.

(** ** The metrics panel ([MetricsGrid.tsx]) *)

Inductive RiskTolerance := low | medium | high.

Inductive StatusColor := success | warning | destructive.

Inductive TrendIcon := TrendingUp | TrendingDown.

Definition getReturnStatus (ret : float) : StatusColor * TrendIcon :=
  if gt ret 0.12 then (success, TrendingUp)
  else if gt ret 0.08 then (warning, TrendingUp)
  else (destructive, TrendingDown).

Definition getRiskStatus (vol : float) (tolerance : RiskTolerance)
  : StatusColor * string :=
  let threshold :=
    match tolerance with
    | low => 0.12
    | medium => 0.18
    | high => 0.25
    end in
  if vol <=? threshold then (success, "Appropriate"%string)
  else if vol <=? threshold * 1.2 then (warning, "Elevated"%string)
  else (destructive, "High"%string).

(** The label of the risk-return badge. *)
Definition sharpeRating (sharpeRatio : float) : string :=
  if gt sharpeRatio 1.5 then "Excellent"
  else if gt sharpeRatio 1 then "Good"
  else if gt sharpeRatio 0.5 then "Fair"
  else "Poor".

(** The variant of the risk-return badge. *)
Definition sharpeBadge (sharpeRatio : float) : string :=
  if gt sharpeRatio 1 then "default" else "secondary".

(** ** The allocation chart ([AllocationChart.tsx]) *)







(** What the inner loop of the frontier holds after [t] candidates, with
    the lowest volatility seen among the candidates within tolerance. *)
Definition lowestSoFar (assets : list Asset) (rand : Random) (target : float)
  (base t : nat) (st : nat * float * list float) : Prop :=
  let '(pos, bestVolatility, bestWeights) := st in
  pos = ((base + t) * length assets)%nat /\
  (forall j mj, (j < t)%nat ->
     evaluate assets (candidate assets rand (base + j)) = Ok mj ->
     withinTolerance mj target = true ->
     (volatility mj <? bestVolatility) = false) /\
  ((bestVolatility = infinity /\ bestWeights = []) \/
   exists k mk, (k < t)%nat /\
     evaluate assets (candidate assets rand (base + k)) = Ok mk /\
     bestWeights = candidate assets rand (base + k) /\
     bestVolatility = volatility mk /\
     withinTolerance mk target = true /\
     (forall j mj, (j < k)%nat ->
        evaluate assets (candidate assets rand (base + j)) = Ok mj ->
        withinTolerance mj target = true ->
        (volatility mj <=? volatility mk) = false)).

(** * Verification *)

(** ** Binary64 facts, from the specification of the primitive operations *)

Ltac sf_cmp :=
  repeat match goal with
  | H : context [Z.compare ?a ?b] |- _ => destruct (Z.compare_spec a b); simpl in H
  | |- context [Z.compare ?a ?b] => destruct (Z.compare_spec a b); simpl
  | H : context [Pos.compare_cont Eq ?a ?b] |- _ =>
      change (Pos.compare_cont Eq a b) with (Pos.compare a b) in H;
      destruct (Pos.compare_spec a b); simpl in H
  | |- context [Pos.compare_cont Eq ?a ?b] =>
      change (Pos.compare_cont Eq a b) with (Pos.compare a b);
      destruct (Pos.compare_spec a b); simpl
  end.

Lemma SFltb_leb_trans x y z :
  SFltb x y = true -> SFleb y z = true -> SFltb x z = true.
Proof.
  unfold SFltb, SFleb, SFcompare.
  destruct x as [[]|[]| |[] mx ex], y as [[]|[]| |[] my ey], z as [[]|[]| |[] mz ez];
    simpl; try discriminate; try reflexivity; intros H1 H2;
    sf_cmp; try discriminate; try reflexivity; try lia.
Qed.

Lemma SFleb_ltb_trans x y z :
  SFleb x y = true -> SFltb y z = true -> SFltb x z = true.
Proof.
  unfold SFltb, SFleb, SFcompare.
  destruct x as [[]|[]| |[] mx ex], y as [[]|[]| |[] my ey], z as [[]|[]| |[] mz ez];
    simpl; try discriminate; try reflexivity; intros H1 H2;
    sf_cmp; try discriminate; try reflexivity; try lia.
Qed.

Lemma SFleb_trans x y z :
  SFleb x y = true -> SFleb y z = true -> SFleb x z = true.
Proof.
  unfold SFltb, SFleb, SFcompare.
  destruct x as [[]|[]| |[] mx ex], y as [[]|[]| |[] my ey], z as [[]|[]| |[] mz ez];
    simpl; try discriminate; try reflexivity; intros H1 H2;
    sf_cmp; try discriminate; try reflexivity; try lia.
Qed.

Lemma SFltb_leb x y : SFltb x y = true -> SFleb x y = true.
Proof. unfold SFltb, SFleb. destruct (SFcompare x y) as [[]|]; congruence. Qed.

(* totality on non-NaN *)
Lemma SFleb_total x y : x <> S754_nan -> y <> S754_nan -> SFleb x y = false -> SFltb y x = true.
Proof.
  unfold SFltb, SFleb, SFcompare.
  destruct x as [[]|[]| |[] mx ex], y as [[]|[]| |[] my ey];
    simpl; try discriminate; try reflexivity; try congruence; intros _ _ H1;
    sf_cmp; try discriminate; try reflexivity; try lia.
Qed.

Lemma SFltb_not_leb x y : SFltb x y = true -> SFleb y x = false.
Proof.
  unfold SFltb, SFleb, SFcompare.
  destruct x as [[]|[]| |[] mx ex], y as [[]|[]| |[] my ey];
    simpl; try discriminate; try reflexivity; try congruence; intros H1;
    sf_cmp; try discriminate; try reflexivity; try lia.
Qed.

Section Binary64.
Local Open Scope Z_scope.

Lemma fexp_val e : fexp prec emax e = Z.max (e - 53) (-1074). Proof. reflexivity. Qed.

Lemma SFmul_comm x y : SF64mul x y = SF64mul y x.
Proof.
  unfold SF64mul.
  destruct x as [sx|sx| |sx mx ex], y as [sy|sy| |sy my ey]; simpl;
    rewrite ?(xorb_comm sy sx), ?(Pos.mul_comm my mx), ?(Z.add_comm ey ex); reflexivity.
Qed.

Lemma digits2_pos_bounds m :
  2 ^ (Zpos (digits2_pos m) - 1) <= Zpos m < 2 ^ Zpos (digits2_pos m).
Proof.
  induction m as [m IH|m IH|]; simpl digits2_pos.
  - rewrite Pos2Z.inj_succ. replace (Z.succ (Zpos (digits2_pos m)) - 1) with (Z.succ (Zpos (digits2_pos m) - 1)) by lia.
    rewrite !Z.pow_succ_r by lia. lia.
  - rewrite Pos2Z.inj_succ. replace (Z.succ (Zpos (digits2_pos m)) - 1) with (Z.succ (Zpos (digits2_pos m) - 1)) by lia.
    rewrite !Z.pow_succ_r by lia. lia.
  - simpl. lia.
Qed.

Lemma iter_pos_inv {A} (P : A -> Prop) (f : A -> A) :
  (forall x, P x -> P (f x)) -> forall p x, P x -> P (SpecFloat.iter_pos f p x).
Proof.
  intros Hf. induction p as [p IH|p IH|]; simpl; intros x Hx; auto.
Qed.

Lemma shr_1_m r : 0 <= shr_m r -> shr_m (shr_1 r) = Z.div2 (shr_m r).
Proof.
  destruct r as [m r s]. simpl. destruct m as [|[p|p|]|p]; simpl; try reflexivity; lia.
Qed.

Lemma shr_iter_m p : forall r, 0 <= shr_m r ->
  shr_m (SpecFloat.iter_pos shr_1 p r) = Z.shiftr (shr_m r) (Zpos p).
Proof.
  assert (H1 : forall r, 0 <= shr_m r -> 0 <= shr_m (shr_1 r)).
  { intros r Hr. rewrite shr_1_m by assumption. apply Z.div2_nonneg. assumption. }
  assert (H2 : forall p, (forall r, 0 <= shr_m r -> shr_m (SpecFloat.iter_pos shr_1 p r) = Z.shiftr (shr_m r) (Zpos p)) ->
                forall r, 0 <= shr_m r -> 0 <= shr_m (SpecFloat.iter_pos shr_1 p r)).
  { intros q Hq r Hr. rewrite Hq by assumption. apply Z.shiftr_nonneg. assumption. }
  induction p as [p IH|p IH|]; intros r Hr; simpl SpecFloat.iter_pos.
  - rewrite IH by (apply H2; auto).
    rewrite IH by auto.
    rewrite shr_1_m by assumption.
    rewrite Z.div2_spec, !Z.shiftr_shiftr by lia. f_equal. lia.
  - rewrite IH by (apply H2; auto).
    rewrite IH by auto.
    rewrite !Z.shiftr_shiftr by lia. f_equal. lia.
  - rewrite shr_1_m, Z.div2_spec by auto. reflexivity.
Qed.

Lemma shr_m_nonneg r e n : 0 <= shr_m r -> 0 <= shr_m (fst (shr r e n)).
Proof.
  intros Hr. destruct n; simpl; auto.
  rewrite shr_iter_m by auto. apply Z.shiftr_nonneg. auto.
Qed.

Lemma shr_record_of_loc_m m l : shr_m (shr_record_of_loc m l) = m.
Proof. destruct l as [|[]]; reflexivity. Qed.

Lemma round_nearest_even_ge m l : m <= round_nearest_even m l.
Proof. destruct l as [|[]]; simpl; try lia. destruct (Z.even m); lia. Qed.

Lemma binary_round_aux_signed s m e l :
  0 <= m -> signed s (binary_round_aux prec emax s m e l).
Proof.
  intros Hm. unfold binary_round_aux, shr_fexp.
  destruct (shr (shr_record_of_loc m l) e _) as [r1 e1] eqn:E1.
  destruct (shr (shr_record_of_loc (round_nearest_even _ _) _) e1 _) as [r2 e2] eqn:E2.
  assert (H1 : 0 <= shr_m r1).
  { change r1 with (fst (r1, e1)). rewrite <- E1. apply shr_m_nonneg.
    rewrite shr_record_of_loc_m. assumption. }
  assert (H2 : 0 <= shr_m r2).
  { change r2 with (fst (r2, e2)). rewrite <- E2. apply shr_m_nonneg.
    rewrite shr_record_of_loc_m. pose proof (round_nearest_even_ge (shr_m r1) (loc_of_shr_record r1)). lia. }
  destruct (shr_m r2); try lia; try constructor.
  destruct (_ <=? _); constructor.
Qed.

Lemma shiftr_pos_digits m n :
  n < Zpos (digits2_pos m) -> 0 < Z.shiftr (Zpos m) n.
Proof.
  intros Hn. destruct (Z.le_gt_cases 0 n) as [H0|H0].
  - rewrite Z.shiftr_div_pow2 by assumption.
    apply Z.div_str_pos. split; [apply Z.pow_pos_nonneg; lia|].
    pose proof (digits2_pos_bounds m) as [Hb _].
    eapply Z.le_trans; [|exact Hb]. apply Z.pow_le_mono_r; lia.
  - destruct n; try lia. simpl. 
    rewrite Z.shiftr_mul_pow2 by lia. apply Z.mul_pos_pos; [lia|]. apply Z.pow_pos_nonneg; lia.
Qed.

(** A right shift chosen by [fexp] keeps a positive mantissa positive when
    the exponent is at least [emin]. *)
Lemma shr_fexp_pos m e l :
  0 < m -> (-1074) <= e ->
  0 < shr_m (fst (shr_fexp prec emax m e l)) /\ (-1074) <= snd (shr_fexp prec emax m e l).
Proof.
  intros Hm He. unfold shr_fexp. rewrite fexp_val.
  destruct m as [|p|p]; try lia. simpl Zdigits2.
  set (d := Zpos (digits2_pos p)).
  set (n := Z.max (d + e - 53) (-1074) - e).
  unfold shr. destruct n as [|q|q] eqn:En; simpl fst; simpl snd;
    rewrite ?shr_record_of_loc_m; try (split; lia).
  rewrite shr_iter_m by (rewrite shr_record_of_loc_m; lia).
  rewrite shr_record_of_loc_m. split; [|lia].
  apply shiftr_pos_digits. fold d. lia.
Qed.

Lemma binary_round_aux_signed_nz s m e l :
  0 < m -> (-1074) <= e -> signed_nz s (binary_round_aux prec emax s m e l).
Proof.
  intros Hm He. unfold binary_round_aux.
  destruct (shr_fexp_pos m e l Hm He) as [H1 H1e].
  destruct (shr_fexp prec emax m e l) as [r1 e1]. simpl in H1, H1e.
  pose proof (round_nearest_even_ge (shr_m r1) (loc_of_shr_record r1)) as Hr.
  destruct (shr_fexp_pos (round_nearest_even (shr_m r1) (loc_of_shr_record r1)) e1 loc_Exact ltac:(lia) H1e) as [H2 _].
  destruct (shr_fexp prec emax _ e1 loc_Exact) as [r2 e2]. simpl in H2.
  destruct (shr_m r2); try lia.
  destruct (_ <=? _); constructor.
Qed.

Lemma shl_align_snd m e e' : (-1074) <= e -> (-1074) <= e' -> (-1074) <= snd (shl_align m e e').
Proof. unfold shl_align. destruct (e' - e); simpl; lia. Qed.

Lemma binary_round_signed_nz s m e :
  (-1074) <= e -> signed_nz s (binary_round prec emax s m e).
Proof.
  intros He. unfold binary_round.
  pose proof (shl_align_snd m e (fexp prec emax (Zpos (digits2_pos m) + e)) He) as Hs.
  destruct (shl_align _ _ _) as [mz ez]. simpl in Hs.
  apply binary_round_aux_signed_nz; [lia|]. apply Hs. rewrite fexp_val. lia.
Qed.

Lemma binary_round_signed s m e : signed s (binary_round prec emax s m e).
Proof.
  unfold binary_round. destruct (shl_align _ _ _) as [mz ez].
  apply binary_round_aux_signed. lia.
Qed.

Lemma valid_finite_bounds s m e :
  valid_binary (S754_finite s m e) = true ->
  (-1074) <= e /\ Zpos (digits2_pos m) <= 53 /\ ((-1074) < e -> Zpos (digits2_pos m) = 53).
Proof.
  simpl. unfold bounded, canonical_mantissa. rewrite fexp_val.
  intros H. apply andb_true_iff in H. destruct H as [H _].
  apply Z.eqb_eq in H. lia.
Qed.

Lemma shl_align_fst m e ez :
  ez <= e -> Zpos (fst (shl_align m e ez)) = Zpos m * 2 ^ (e - ez).
Proof.
  intros H. unfold shl_align. destruct (ez - e) as [|d|d] eqn:E; try lia; simpl fst.
  - replace (e - ez) with 0 by lia. simpl. lia.
  - replace (e - ez) with (Zpos d) by lia.
    change (Pos.iter xO m d) with (shift_pos d m).
    rewrite shift_pos_correct. rewrite Zpower_pos_nat, Zpower_nat_Z, positive_nat_Z. lia.
Qed.

Lemma aligned_compare mx ex my ey :
  valid_binary (S754_finite false mx ex) = true ->
  valid_binary (S754_finite false my ey) = true ->
  (Zpos mx * 2 ^ (ex - Z.min ex ey) ?= Zpos my * 2 ^ (ey - Z.min ex ey)) =
  match ex ?= ey with
  | Lt => Lt
  | Gt => Gt
  | Eq => Pos.compare mx my
  end.
Proof.
  intros Hx Hy.
  apply valid_finite_bounds in Hx, Hy.
  destruct Hx as (Hx1 & Hx2 & Hx3), Hy as (Hy1 & Hy2 & Hy3).
  pose proof (digits2_pos_bounds mx) as [Bx1 Bx2].
  pose proof (digits2_pos_bounds my) as [By1 By2].
  assert (P53 : forall d, d <= 53 -> 2 ^ d <= 2 ^ 53).
  { intros d Hd. apply Z.pow_le_mono_r; lia. }
  assert (P2 : forall k, 0 < k -> 2 <= 2 ^ k).
  { intros k Hk. change 2 with (2 ^ 1) at 1. apply Z.pow_le_mono_r; lia. }
  destruct (Z.compare_spec ex ey) as [E|E|E].
  - subst ey. rewrite Z.min_id, Z.sub_diag. simpl. rewrite !Pos.mul_1_r. reflexivity.
  - rewrite Z.min_l by lia. rewrite Z.sub_diag, Z.mul_1_r.
    apply Z.compare_lt_iff.
    specialize (Hy3 ltac:(lia)). rewrite Hy3 in By1.
    specialize (P53 _ Hx2). specialize (P2 (ey - ex) ltac:(lia)).
    change (2 ^ (53 - 1)) with 4503599627370496 in By1.
    change (2 ^ 53) with 9007199254740992 in P53. nia.
  - rewrite Z.min_r by lia. rewrite Z.sub_diag, Z.mul_1_r.
    apply Z.compare_gt_iff.
    specialize (Hx3 ltac:(lia)). rewrite Hx3 in Bx1.
    specialize (P53 _ Hy2). specialize (P2 (ex - ey) ltac:(lia)).
    change (2 ^ (53 - 1)) with 4503599627370496 in Bx1.
    change (2 ^ 53) with 9007199254740992 in P53. nia.
Qed.

Lemma signed_true_not_pos x : signed true x -> SFltb (S754_zero false) x = false.
Proof. destruct 1; reflexivity. Qed.

Lemma signed_nz_false_pos x : signed_nz false x -> SFltb (S754_zero false) x = true.
Proof. destruct 1; reflexivity. Qed.

Lemma SFsub_pos_iff mx ex my ey :
  valid_binary (S754_finite false mx ex) = true ->
  valid_binary (S754_finite false my ey) = true ->
  SFltb (S754_zero false) (SF64sub (S754_finite false mx ex) (S754_finite false my ey)) =
  SFltb (S754_finite false my ey) (S754_finite false mx ex).
Proof.
  intros Hx Hy. unfold SF64sub, SFsub. cbv zeta. unfold cond_Zopp.
  rewrite !shl_align_fst by lia.
  pose proof (aligned_compare my ey mx ex Hy Hx) as HC.
  rewrite (Z.min_comm ey ex) in HC.
  assert (Hez : (-1074) <= Z.min ex ey).
  { apply valid_finite_bounds in Hx, Hy. lia. }
  unfold SFltb at 2. simpl SFcompare.
  change (Pos.compare_cont Eq my mx) with (Pos.compare my mx).
  rewrite <- HC.
  set (A := Zpos mx * 2 ^ (ex - Z.min ex ey)) in *.
  set (B := Zpos my * 2 ^ (ey - Z.min ex ey)) in *.
  destruct (A - B) as [|p|p] eqn:E; unfold binary_normalize.
  - replace B with A by lia. rewrite Z.compare_refl. reflexivity.
  - rewrite signed_nz_false_pos by (apply binary_round_signed_nz; assumption).
    assert (B < A) as ->%Z.compare_lt_iff by lia. reflexivity.
  - rewrite signed_true_not_pos by apply binary_round_signed.
    destruct (Z.compare_spec B A); try reflexivity; lia.
Qed.

End Binary64.

Lemma finite_nonneg_spec x :
  finite_nonneg x = true ->
  (exists s, Prim2SF x = S754_zero s) \/ (exists m e, Prim2SF x = S754_finite false m e).
Proof.
  unfold finite_nonneg. rewrite leb_spec, ltb_spec.
  change (Prim2SF 0) with (S754_zero false). change (Prim2SF infinity) with (S754_infinity false).
  destruct (Prim2SF x) as [s|[]| |[] m e]; simpl; try discriminate; eauto.
Qed.

Lemma sub_pos_iff a b :
  finite_nonneg a = true -> finite_nonneg b = true ->
  (0 <? a - b) = (b <? a).
Proof.
  intros Ha Hb.
  pose proof (Prim2SF_valid a) as Va. pose proof (Prim2SF_valid b) as Vb.
  apply finite_nonneg_spec in Ha, Hb.
  rewrite !ltb_spec, sub_spec. change (Prim2SF 0) with (S754_zero false).
  destruct Ha as [[sa Ea]|(ma & ea & Ea)], Hb as [[sb Eb]|(mb & eb & Eb)];
    rewrite Ea, Eb in *.
  - destruct sa, sb; reflexivity.
  - reflexivity.
  - reflexivity.
  - apply SFsub_pos_iff; assumption.
Qed.

(** ** Loops *)

Lemma for_fold {St} (body : nat -> St -> St) count : forall start s,
  for_ start count body s = fold_left (fun s i => body i s) (seq start count) s.
Proof. induction count as [|n IH]; intros; simpl; auto. Qed.

Lemma for_snoc {St} (body : nat -> St -> St) count : forall start s,
  for_ start (S count) body s = body (start + count)%nat (for_ start count body s).
Proof.
  induction count as [|n IH]; intros start s.
  - simpl. rewrite Nat.add_0_r. reflexivity.
  - change (for_ start (S (S n)) body s) with (for_ (S start) (S n) body (body start s)).
    rewrite IH. simpl. f_equal. lia.
Qed.

Lemma for_ext {St} (f g : nat -> St -> St) count : forall start s,
  (forall i s, (start <= i < start + count)%nat -> f i s = g i s) ->
  for_ start count f s = for_ start count g s.
Proof.
  induction count as [|n IH]; intros start s H; simpl; auto.
  rewrite H by lia. apply IH. intros; apply H; lia.
Qed.

Lemma for_inv {St} (P : nat -> St -> Prop) (body : nat -> St -> St) count :
  forall start s,
  P start s ->
  (forall i s, (start <= i < start + count)%nat -> P i s -> P (S i) (body i s)) ->
  P (start + count)%nat (for_ start count body s).
Proof.
  induction count as [|n IH]; intros start s H0 Hstep; simpl.
  - rewrite Nat.add_0_r. assumption.
  - replace (start + S n)%nat with (S start + n)%nat by lia.
    apply IH; [apply Hstep; [lia|assumption]|].
    intros; apply Hstep; [lia|assumption].
Qed.

Lemma for_push {A} (h : nat -> A) count : forall start acc,
  for_ start count (fun i acc => acc ++ [h i]) acc = acc ++ map h (seq start count).
Proof.
  induction count as [|n IH]; intros; simpl.
  - rewrite app_nil_r. reflexivity.
  - rewrite IH, <- app_assoc. reflexivity.
Qed.

Lemma forM_ok {St} (body : nat -> St -> result St) (f : nat -> St -> St) count :
  forall start s,
  (forall i s, (start <= i < start + count)%nat -> body i s = Ok (f i s)) ->
  forM start count body s = Ok (for_ start count f s).
Proof.
  induction count as [|n IH]; intros start s H; simpl; auto.
  rewrite H by lia. simpl. apply IH. intros; apply H; lia.
Qed.

Lemma forM_inv {St} (P : nat -> St -> Prop) (body : nat -> St -> result St) count :
  forall start s r,
  P start s ->
  (forall i s s', (start <= i < start + count)%nat -> P i s -> body i s = Ok s' -> P (S i) s') ->
  forM start count body s = Ok r ->
  P (start + count)%nat r.
Proof.
  induction count as [|n IH]; intros start s r H0 Hstep; simpl.
  - intros [= <-]. rewrite Nat.add_0_r. assumption.
  - destruct (body start s) as [s'|] eqn:E; simpl; [|discriminate].
    intros Hr. replace (start + S n)%nat with (S start + n)%nat by lia.
    eapply IH; [| |exact Hr].
    + eapply Hstep; [|eassumption|eassumption]. lia.
    + intros; eapply Hstep; [|eassumption|eassumption]. lia.
Qed.

Lemma forM_error {St} (body : nat -> St -> result St) count : forall start s,
  (forall i s, (start <= i < start + count)%nat -> body i s = TypeError) ->
  (0 < count)%nat ->
  forM start count body s = TypeError.
Proof.
  destruct count as [|n]; intros start s H Hc; [lia|]. simpl.
  rewrite H by lia. reflexivity.
Qed.

Lemma at_Some {A} (arr : list A) i a : nth_error arr i = Some a -> at_ arr i = Ok a.
Proof. unfold at_. intros ->. reflexivity. Qed.

Lemma at_lt {A} (arr : list A) i d : (i < length arr)%nat -> at_ arr i = Ok (nth i arr d).
Proof.
  intros H. unfold at_. rewrite (nth_error_nth' arr d H). reflexivity.
Qed.

Lemma at_ge {A} (arr : list A) i : (length arr <= i)%nat -> at_ arr i = TypeError.
Proof.
  intros H. unfold at_. apply nth_error_None in H. rewrite H. reflexivity.
Qed.

(** ** Arithmetic of binary64 *)

Lemma mul_comm x y : x * y = y * x.
Proof. apply Prim2SF_inj. rewrite !mul_spec. apply SFmul_comm. Qed.

Lemma ltb_leb_trans x y z : (x <? y) = true -> (y <=? z) = true -> (x <? z) = true.
Proof. rewrite !ltb_spec, leb_spec. apply SFltb_leb_trans. Qed.

Lemma leb_ltb_trans x y z : (x <=? y) = true -> (y <? z) = true -> (x <? z) = true.
Proof. rewrite !ltb_spec, leb_spec. apply SFleb_ltb_trans. Qed.

Lemma leb_trans x y z : (x <=? y) = true -> (y <=? z) = true -> (x <=? z) = true.
Proof. rewrite !leb_spec. apply SFleb_trans. Qed.

Lemma ltb_leb x y : (x <? y) = true -> (x <=? y) = true.
Proof. rewrite ltb_spec, leb_spec. apply SFltb_leb. Qed.

Lemma ltb_not_leb x y : (x <? y) = true -> (y <=? x) = false.
Proof. rewrite ltb_spec, leb_spec. apply SFltb_not_leb. Qed.

(** ** Return series *)

Lemma returnsOver_map {N} (sub div : N -> N -> N) (undef : N) prices :
  returnsOver sub div undef prices =
  map (fun i => div (sub (nth i prices undef) (nth (i - 1) prices undef))
                  (nth (i - 1) prices undef))
    (seq 1 (length prices - 1)).
Proof. unfold returnsOver. rewrite for_push. reflexivity. Qed.

Lemma returnsOver_length {N} (sub div : N -> N -> N) (undef : N) prices :
  length (returnsOver sub div undef prices) = (length prices - 1)%nat.
Proof. rewrite returnsOver_map, length_map, length_seq. reflexivity. Qed.





(** ** Covariance *)

Lemma idx_map_mean returns i :
  (i < length returns)%nat ->
  idx (map mean returns) i = mean (nth i returns []).
Proof.
  intros H. unfold idx.
  rewrite (nth_indep _ nan (mean [])) by (rewrite length_map; assumption).
  apply map_nth.
Qed.

Lemma calculateCovarianceMatrix_ok returns r0 :
  nth_error returns 0 = Some r0 ->
  calculateCovarianceMatrix returns =
  Ok (map (fun i => map (covEntry returns (length r0) i) (seq 0 (length returns)))
        (seq 0 (length returns))).
Proof.
  intros H0. unfold calculateCovarianceMatrix. rewrite (at_Some _ _ _ H0). simpl bind.
  erewrite forM_ok.
  - rewrite for_push. reflexivity.
  - intros i covMatrix Hi. simpl.
    rewrite (at_lt returns i []) by lia. simpl bind.
    erewrite forM_ok.
    + simpl bind. rewrite for_push. reflexivity.
    + intros j row Hj. simpl.
      rewrite (at_lt returns j []) by lia. simpl bind. reflexivity.
Qed.

Lemma covEntry_spec returns m i j :
  (i < length returns)%nat -> (j < length returns)%nat ->
  length (nth i returns []) = m ->
  covEntry returns m i j = annualizedCovariance (nth i returns []) (nth j returns []).
Proof.
  intros Hi Hj Hm. unfold covEntry, annualizedCovariance, sampleCovariance, deviationProducts, len.
  rewrite !idx_map_mean by assumption. rewrite for_fold, Hm. reflexivity.
Qed.

Lemma deviationProducts_comm x y :
  length x = length y -> deviationProducts x y = deviationProducts y x.
Proof.
  intros H. unfold deviationProducts. rewrite H.
  generalize (seq 0 (length y)). generalize 0.
  intros acc l. revert acc.
  induction l as [|k l IH]; intros acc; simpl; [reflexivity|].
  rewrite (mul_comm (idx x k - mean x)). apply IH.
Qed.

Lemma annualizedCovariance_comm x y :
  length x = length y -> annualizedCovariance x y = annualizedCovariance y x.
Proof.
  intros H. unfold annualizedCovariance, sampleCovariance, len.
  rewrite deviationProducts_comm, H by assumption. reflexivity.
Qed.

Lemma entry_map2 (f : nat -> nat -> float) n i j :
  (i < n)%nat -> (j < n)%nat ->
  entry (map (fun i => map (f i) (seq 0 n)) (seq 0 n)) i j = f i j.
Proof.
  intros Hi Hj. unfold entry, idx.
  rewrite (nth_indep _ [] ((fun i => map (f i) (seq 0 n)) O)) by (rewrite length_map, length_seq; lia).
  rewrite (map_nth (fun i => map (f i) (seq 0 n))), seq_nth by lia.
  rewrite (nth_indep _ nan (f (0 + i)%nat O)) by (rewrite length_map, length_seq; lia).
  rewrite map_nth, seq_nth by lia. reflexivity.
Qed.

(** C4.  For a non-empty collection of [n] return series of equal length
    [m], [calculateCovarianceMatrix] returns an [n] by [n] matrix whose entry
    [(i, j)] is the unbiased sample covariance of series [i] and [j] (sum of
    the products of deviations from the means, divided by [m - 1]) times 252;
    the matrix is symmetric and its diagonal holds the annualized sample
    variances.  (The bound [m >= 2] of the claim is not needed.) *)
Theorem calculateCovarianceMatrix_annualized_sample_covariance
  (returns : list (list float)) (m : nat) :
  returns <> [] ->
  (forall r, In r returns -> length r = m) ->
  exists covMatrix,
    calculateCovarianceMatrix returns = Ok covMatrix /\
    length covMatrix = length returns /\
    (forall i, (i < length returns)%nat ->
       length (nth i covMatrix []) = length returns) /\
    (forall i j, (i < length returns)%nat -> (j < length returns)%nat ->
       entry covMatrix i j
       = annualizedCovariance (nth i returns []) (nth j returns [])) /\
    (forall i j, (i < length returns)%nat -> (j < length returns)%nat ->
       entry covMatrix i j = entry covMatrix j i) /\
    (forall i, (i < length returns)%nat ->
       entry covMatrix i i = annualizedVariance (nth i returns [])).
Proof.
  intros Hne Hlen.
  destruct returns as [|r0 rest] eqn:E; [congruence|]. rewrite <- E in *.
  assert (H0 : nth_error returns 0 = Some r0) by (rewrite E; reflexivity).
  assert (Hm : forall i, (i < length returns)%nat -> length (nth i returns []) = m).
  { intros i Hi. apply Hlen, nth_In, Hi. }
  assert (Hr0 : length r0 = m) by (apply Hlen; rewrite E; left; reflexivity).
  set (n := length returns) in *.
  assert (Hent : forall i j, (i < n)%nat -> (j < n)%nat ->
     entry (map (fun i => map (covEntry returns (length r0) i) (seq 0 n)) (seq 0 n)) i j
     = annualizedCovariance (nth i returns []) (nth j returns [])).
  { intros i j Hi Hj. rewrite entry_map2 by assumption. rewrite Hr0.
    apply covEntry_spec; auto. }
  eexists. split; [apply calculateCovarianceMatrix_ok; exact H0|]. fold n.
  split; [rewrite length_map, length_seq; reflexivity|].
  split.
  { intros i Hi.
    rewrite (nth_indep _ [] ((fun i => map (covEntry returns (length r0) i) (seq 0 n)) O))
      by (rewrite length_map, length_seq; lia).
    rewrite (map_nth (fun i => map (covEntry returns (length r0) i) (seq 0 n))).
    rewrite length_map, length_seq. reflexivity. }
  split; [exact Hent|]. split.
  - intros i j Hi Hj. rewrite !Hent by assumption.
    apply annualizedCovariance_comm. rewrite !Hm by assumption. reflexivity.
  - intros i Hi. rewrite Hent by assumption. reflexivity.
Qed.

(** The theorem at two series of three returns. *)
Lemma calculateCovarianceMatrix_witness :
  exists covMatrix,
    calculateCovarianceMatrix [[0.1; 0.2; 0.05]; [0.3; 0.1; 0.2]] = Ok covMatrix /\
    entry covMatrix 0 1 = entry covMatrix 1 0.
Proof.
  destruct (calculateCovarianceMatrix_annualized_sample_covariance
              [[0.1; 0.2; 0.05]; [0.3; 0.1; 0.2]] 3) as (M & HM & _ & _ & _ & Hsym & _).
  - discriminate.
  - intros r [<-|[<-|[]]]; reflexivity.
  - exists M. split; [exact HM|]. apply Hsym; simpl; lia.
Defined.

(** ** Where the metrics throw *)

Lemma forM_total {St} (body : nat -> St -> result St) count : forall start s,
  (forall i s, (start <= i < start + count)%nat -> exists s', body i s = Ok s') ->
  exists r, forM start count body s = Ok r.
Proof.
  induction count as [|n IH]; intros start s H; simpl; eauto.
  destruct (H start s ltac:(lia)) as [s' ->]. simpl.
  apply IH. intros; apply H; lia.
Qed.

Lemma forM_error_at {St} (body : nat -> St -> result St) count : forall start s i,
  (start <= i < start + count)%nat ->
  (forall s, body i s = TypeError) ->
  forM start count body s = TypeError.
Proof.
  induction count as [|n IH]; intros start s i Hi Herr; [lia|]. simpl.
  destruct (Nat.eq_dec i start) as [->|Hne].
  - rewrite Herr. reflexivity.
  - destruct (body start s); simpl; [|reflexivity].
    apply (IH _ _ i); [lia|assumption].
Qed.

Lemma calculateCovarianceMatrix_nil : calculateCovarianceMatrix [] = TypeError.
Proof. reflexivity. Qed.

Lemma calculateCovarianceMatrix_total returns :
  returns <> [] ->
  exists covMatrix, calculateCovarianceMatrix returns = Ok covMatrix /\
                    length covMatrix = length returns.
Proof.
  intros H. destruct returns as [|r0 rest] eqn:E; [congruence|]. rewrite <- E.
  eexists. split.
  - apply (calculateCovarianceMatrix_ok returns r0). rewrite E. reflexivity.
  - rewrite length_map, length_seq. reflexivity.
Qed.

Lemma portfolioVarianceOf_total weights covMatrix :
  (length weights <= length covMatrix)%nat ->
  exists v, portfolioVarianceOf weights covMatrix = Ok v.
Proof.
  intros H. unfold portfolioVarianceOf. apply forM_total.
  intros i s Hi. apply forM_total. intros j s' Hj.
  rewrite (at_lt covMatrix i []) by lia. simpl. eauto.
Qed.

Lemma portfolioVarianceOf_error weights covMatrix :
  (length covMatrix < length weights)%nat ->
  portfolioVarianceOf weights covMatrix = TypeError.
Proof.
  intros H. unfold portfolioVarianceOf.
  apply (forM_error_at _ _ _ _ (length covMatrix)); [lia|].
  intros s. apply forM_error; [|lia].
  intros j s' _. rewrite at_ge by lia. reflexivity.
Qed.

Lemma calculatePortfolioReturns_total returns weights :
  returns <> [] -> (length weights <= length returns)%nat ->
  exists pr, calculatePortfolioReturns returns weights = Ok pr.
Proof.
  intros Hne H. unfold calculatePortfolioReturns.
  destruct returns as [|r0 rest] eqn:E; [congruence|]. rewrite <- E in *.
  replace (at_ returns 0) with (Ok r0) by (rewrite E; reflexivity). simpl bind.
  apply forM_total. intros i s Hi.
  edestruct (forM_total (fun j periodReturn => rj <- at_ returns j;;
                 Ok (periodReturn + idx weights j * idx rj i)) (length weights) 0%nat 0) as [x Hx].
  - intros j s' Hj. rewrite (at_lt returns j []) by lia. simpl. eauto.
  - rewrite Hx. simpl. eauto.
Qed.

Lemma portfolioValueSeries_total assets weights :
  assets <> [] -> exists values, portfolioValueSeries assets weights = Ok values.
Proof.
  intros Hne. unfold portfolioValueSeries.
  destruct assets as [|a0 rest] eqn:E; [congruence|]. rewrite <- E in *.
  replace (at_ assets 0) with (Ok a0) by (rewrite E; reflexivity). simpl bind.
  apply forM_total. intros i s Hi.
  edestruct (forM_total (fun j portfolioValue => aj <- at_ assets j;;
                 Ok (portfolioValue + idx weights j * idx (prices aj) i)) (length assets) 0%nat 0) as [x Hx].
  - intros j s' Hj. rewrite (at_lt assets j a0) by lia. simpl. eauto.
  - rewrite Hx. simpl. eauto.
Qed.

Lemma calculateMaxDrawdown_total assets weights :
  assets <> [] -> exists d, calculateMaxDrawdown assets weights = Ok d.
Proof.
  intros H. unfold calculateMaxDrawdown.
  destruct (portfolioValueSeries_total assets weights H) as [v ->]. simpl. eauto.
Qed.

Lemma calculatePortfolioMetrics_total assets weights marketReturns :
  assets <> [] -> (length weights <= length assets)%nat ->
  exists m, calculatePortfolioMetrics assets weights marketReturns = Ok m.
Proof.
  intros Hne Hlen. unfold calculatePortfolioMetrics.
  assert (Hr : map returns assets <> []) by (destruct assets; simpl; congruence).
  destruct (calculateCovarianceMatrix_total _ Hr) as (C & -> & HC). simpl bind.
  rewrite length_map in HC.
  destruct (portfolioVarianceOf_total weights C ltac:(lia)) as [v ->]. simpl bind.
  destruct (calculatePortfolioReturns_total (map returns assets) weights Hr) as [pr ->];
    [rewrite length_map; lia|]. simpl bind.
  destruct (calculateMaxDrawdown_total assets weights Hne) as [d ->]. simpl bind.
  eauto.
Qed.

Lemma calculatePortfolioMetrics_error assets weights marketReturns :
  assets = [] \/ (length assets < length weights)%nat ->
  calculatePortfolioMetrics assets weights marketReturns = TypeError.
Proof.
  intros [->|Hlen]; [reflexivity|].
  unfold calculatePortfolioMetrics.
  destruct assets as [|a0 rest] eqn:E; [reflexivity|]. rewrite <- E in *.
  assert (Hr : map returns assets <> []) by (rewrite E; simpl; congruence).
  destruct (calculateCovarianceMatrix_total _ Hr) as (C & -> & HC). simpl bind.
  rewrite length_map in HC.
  rewrite portfolioVarianceOf_error by lia. reflexivity.
Qed.

Lemma calculatePortfolioMetrics_weights assets ws marketReturns m :
  calculatePortfolioMetrics assets ws marketReturns = Ok m -> weights m = ws.
Proof.
  unfold calculatePortfolioMetrics.
  destruct (calculateCovarianceMatrix _); simpl; [|discriminate].
  destruct (portfolioVarianceOf _ _); simpl; [|discriminate].
  destruct (calculatePortfolioReturns _ _); simpl; [|discriminate].
  destruct (calculateMaxDrawdown _ _); simpl; [|discriminate].
  intros [= <-]. reflexivity.
Qed.

(** C1, amended.  [calculatePortfolioMetrics] validates nothing.  It throws
    (a [TypeError] from a property read on [undefined], raised in the middle
    of the computation) exactly when the asset list is empty or the weight
    vector is longer than the asset list; in every other case, whatever the
    lengths of the return series, it returns a metrics record that carries
    the weight vector it was given. *)
Theorem calculatePortfolioMetrics_throws_iff
  (assets : list Asset) (ws marketReturns : list float) :
  (calculatePortfolioMetrics assets ws marketReturns = TypeError <->
   assets = [] \/ (length assets < length ws)%nat) /\
  (forall m, calculatePortfolioMetrics assets ws marketReturns = Ok m ->
             weights m = ws).
Proof.
  split; [split|].
  - intros H.
    destruct assets as [|a0 rest] eqn:E; [left; reflexivity|]. rewrite <- E in *.
    destruct (Nat.lt_ge_cases (length assets) (length ws)) as [Hl|Hl]; [right; exact Hl|].
    destruct (calculatePortfolioMetrics_total assets ws marketReturns) as [m Hm];
      [rewrite E; discriminate|exact Hl|congruence].
  - apply calculatePortfolioMetrics_error.
  - intros m. apply calculatePortfolioMetrics_weights.
Qed.

(** C1, counterexample.  Assets whose return series have lengths 2 and 1
    are accepted and give a record with NaN volatility and Sharpe ratio; a
    weight vector shorter than the asset list is accepted as well. *)
Lemma calculatePortfolioMetrics_no_validation :
  (exists m,
      calculatePortfolioMetrics
        [assetOf "A" "A" [100; 110; 121]; assetOf "B" "B" [1; 2]] [0.5; 0.5] [] = Ok m /\
      volatility m = nan /\ sharpeRatio m = nan) /\
  (exists m,
      calculatePortfolioMetrics
        [assetOf "A" "A" [100; 110; 121]; assetOf "B" "B" [50; 50; 50]] [1] [] = Ok m).
Proof.
  split; eexists; vm_compute; repeat split.
Qed.

(** ** Square root and division keep the sign they are given *)

Lemma SFsqrt_core_nonneg m e q e' l :
  SFsqrt_core_binary prec emax (Zpos m) e = (q, e', l) -> (0 <= q)%Z.
Proof.
  unfold SFsqrt_core_binary. cbv zeta.
  match goal with |- context [Z.sqrtrem ?x] => pose proof (Z.sqrtrem_sqrt x) as Hs;
    destruct (Z.sqrtrem x) as [q' r'] end.
  simpl in Hs. intros [= <- _ _]. subst q'. apply Z.sqrt_nonneg.
Qed.

Lemma signed_false_nonneg x : signed false x -> SFleb (S754_zero false) x = true.
Proof. destruct 1; reflexivity. Qed.

Lemma SFsqrt_finite_signed m e : signed false (SF64sqrt (S754_finite false m e)).
Proof.
  unfold SF64sqrt, SFsqrt.
  destruct (SFsqrt_core_binary prec emax (Zpos m) e) as [[q e'] l] eqn:E.
  apply binary_round_aux_signed. eapply SFsqrt_core_nonneg, E.
Qed.

Lemma SFsqrt_nan_or_nonneg x :
  SF64sqrt x = S754_nan \/ SFleb (S754_zero false) (SF64sqrt x) = true.
Proof.
  destruct x as [[]|[]| |[] m e]; try (left; reflexivity); try (right; reflexivity).
  right. apply signed_false_nonneg, SFsqrt_finite_signed.
Qed.

Lemma SFsqrt_of_nonneg x :
  SFleb (S754_zero false) x = true -> SFleb (S754_zero false) (SF64sqrt x) = true.
Proof.
  destruct x as [[]|[]| |[] m e]; try discriminate; try reflexivity.
  intros _. apply signed_false_nonneg, SFsqrt_finite_signed.
Qed.

Lemma sqrt_nan_or_nonneg x : sqrt x = nan \/ (0 <=? sqrt x) = true.
Proof.
  rewrite leb_spec, sqrt_spec. change (Prim2SF 0) with (S754_zero false).
  destruct (SFsqrt_nan_or_nonneg (Prim2SF x)) as [H|H]; [left|right; exact H].
  apply Prim2SF_inj. rewrite sqrt_spec. exact H.
Qed.

Lemma sqrt_of_negative x : (x <? 0) = true -> sqrt x = nan.
Proof.
  rewrite ltb_spec. change (Prim2SF 0) with (S754_zero false). intros H.
  apply Prim2SF_inj. rewrite sqrt_spec. change (Prim2SF nan) with S754_nan.
  destruct (Prim2SF x) as [?|[]| |[] m e]; simpl in H; try discriminate; reflexivity.
Qed.

Lemma sqrt_of_nonneg x : (0 <=? x) = true -> (0 <=? sqrt x) = true.
Proof.
  rewrite !leb_spec, sqrt_spec. change (Prim2SF 0) with (S754_zero false).
  apply SFsqrt_of_nonneg.
Qed.

Lemma sqrt_of_nan : sqrt nan = nan.
Proof. reflexivity. Qed.

Lemma calculatePortfolioMetrics_volatility assets ws marketReturns m :
  calculatePortfolioMetrics assets ws marketReturns = Ok m ->
  exists covMatrix portfolioVariance,
    calculateCovarianceMatrix (map returns assets) = Ok covMatrix /\
    portfolioVarianceOf ws covMatrix = Ok portfolioVariance /\
    volatility m = sqrt portfolioVariance.
Proof.
  unfold calculatePortfolioMetrics.
  destruct (calculateCovarianceMatrix _) as [C|] eqn:EC; simpl; [|discriminate].
  destruct (portfolioVarianceOf _ _) as [v|] eqn:Ev; simpl; [|discriminate].
  destruct (calculatePortfolioReturns _ _); simpl; [|discriminate].
  destruct (calculateMaxDrawdown _ _); simpl; [|discriminate].
  intros [= <-]. simpl. exists C, v.
  split; [reflexivity|]. split; [exact Ev|reflexivity].
Qed.

(** C2, amended.  The volatility is the square root of the accumulated
    portfolio variance, with no clamp: it is NaN when that variance is
    negative or NaN, and it is non-negative when the variance is. *)
Theorem volatility_is_unclamped_sqrt
  (assets : list Asset) (ws marketReturns : list float) (m : PortfolioMetrics) :
  calculatePortfolioMetrics assets ws marketReturns = Ok m ->
  exists covMatrix portfolioVariance,
    calculateCovarianceMatrix (map returns assets) = Ok covMatrix /\
    portfolioVarianceOf ws covMatrix = Ok portfolioVariance /\
    volatility m = sqrt portfolioVariance /\
    ((portfolioVariance <? 0) = true -> volatility m = nan) /\
    (portfolioVariance = nan -> volatility m = nan) /\
    ((0 <=? portfolioVariance) = true -> (0 <=? volatility m) = true).
Proof.
  intros H.
  destruct (calculatePortfolioMetrics_volatility _ _ _ _ H) as (C & v & HC & Hv & Hs).
  exists C, v. rewrite Hs.
  split; [exact HC|]. split; [exact Hv|]. split; [reflexivity|].
  split; [apply sqrt_of_negative|]. split; [intros ->; reflexivity|].
  apply sqrt_of_nonneg.
Qed.

(** The theorem at one asset with prices [100, 80, 90] and weight 1. *)
Lemma volatility_witness :
  exists covMatrix portfolioVariance,
    calculateCovarianceMatrix
      (map returns [assetOf "A" "A" [100; 80; 90]]) = Ok covMatrix /\
    portfolioVarianceOf [1] covMatrix = Ok portfolioVariance /\
    3.6481159521045932 = sqrt portfolioVariance.
Proof.
  destruct (volatility_is_unclamped_sqrt [assetOf "A" "A" [100; 80; 90]] [1] []
              {| expectedReturn := -9.4500000000000011;
                 volatility := 3.6481159521045932;
                 sharpeRatio := -2.595860472728881;
                 beta := nan;
                 var95 := -0.37803696289185801;
                 maxDrawdown := 0.20000000000000001;
                 weights := [1] |})
    as (C & v & HC & Hv & Hs & _).
  - vm_compute. reflexivity.
  - exists C, v. repeat split; assumption.
Defined.

(** C2, counterexample.  Two assets with three prices each and weights
    [0.5, 0.5]: rounding makes the accumulated variance slightly negative and
    the volatility is NaN. *)
Lemma volatility_nan_from_rounding :
  exists m,
    calculatePortfolioMetrics
      [assetOf "A" "A" [110; 99; 99]; assetOf "B" "B" [98; 105; 102]]
      [0.5; 0.5] (calculateReturns [110; 99; 99]) = Ok m /\
    volatility m = nan.
Proof. eexists. vm_compute. split; reflexivity. Qed.

(** ** Maximum drawdown *)

Lemma portfolioValueSeries_values assets ws a0 :
  nth_error assets 0 = Some a0 ->
  portfolioValueSeries assets ws =
  Ok (map (valueAt assets ws) (seq 0 (length (prices a0)))).
Proof.
  intros H0. unfold portfolioValueSeries. rewrite (at_Some _ _ _ H0). simpl bind.
  erewrite forM_ok.
  - rewrite for_push. reflexivity.
  - intros i values Hi. simpl.
    erewrite (forM_ok _ (fun j pv => pv + idx ws j * idx (pricesOf assets j) i)).
    + simpl bind. rewrite for_fold. reflexivity.
    + intros j pv Hj. unfold at_, pricesOf.
      destruct (nth_error assets j) eqn:E; [reflexivity|].
      apply nth_error_None in E. lia.
Qed.

Lemma runningPeak_S values n :
  runningPeak values (S n) =
  if gt (idx values (S n)) (runningPeak values n)
  then idx values (S n) else runningPeak values n.
Proof.
  unfold runningPeak. rewrite seq_S, fold_left_app. reflexivity.
Qed.

Lemma drawdown_loop values n :
  for_ 1 n (drawdownStep values) (0, idx values 0) =
  (fold_left (fun best t => if gt (drawdownAt values t) best
                            then drawdownAt values t else best) (seq 1 n) 0,
   runningPeak values n).
Proof.
  rewrite for_fold. induction n as [|n IH]; [reflexivity|].
  rewrite seq_S, !fold_left_app, IH. simpl fold_left.
  unfold drawdownStep, drawdownAt. rewrite runningPeak_S. reflexivity.
Qed.

Lemma drawdownOf_largest values : drawdownOf values = largestDrawdown values.
Proof. unfold drawdownOf. rewrite drawdown_loop. reflexivity. Qed.

Lemma largest_fold_nonneg (dd : nat -> float) l : forall best,
  (0 <=? best) = true ->
  (0 <=? fold_left (fun best t => if gt (dd t) best then dd t else best) l best) = true.
Proof.
  induction l as [|t l IH]; intros best Hb; simpl; [exact Hb|].
  apply IH. unfold gt. destruct (best <? dd t) eqn:E; [|exact Hb].
  apply ltb_leb. eapply leb_ltb_trans; eassumption.
Qed.

Lemma largestDrawdown_nonneg values : (0 <=? largestDrawdown values) = true.
Proof. apply largest_fold_nonneg. reflexivity. Qed.

(** C8.  When [calculateMaxDrawdown] returns, its result is at least 0 and
    is the largest drawdown [(peak - value[t]) / peak] over the weighted
    value series [value[t] = sum_j weight[j] * price[j][t]], with [peak] the
    running peak of the series; for one asset with prices [100, 80, 90] and
    weight [1.0] it is exactly 0.2. *)
Theorem calculateMaxDrawdown_running_peak
  (assets : list Asset) (ws : list float) (result : float) :
  calculateMaxDrawdown assets ws = Ok result ->
  (0 <=? result) = true /\
  (exists values,
      portfolioValueSeries assets ws = Ok values /\
      values = map (valueAt assets ws) (seq 0 (length (pricesOf assets 0))) /\
      result = largestDrawdown values) /\
  calculateMaxDrawdown [assetOf "A" "A" [100; 80; 90]] [1] = Ok 0.2.
Proof.
  unfold calculateMaxDrawdown.
  destruct assets as [|a0 rest] eqn:E; [discriminate|]. rewrite <- E.
  assert (H0 : nth_error assets 0 = Some a0) by (rewrite E; reflexivity).
  rewrite (portfolioValueSeries_values assets ws a0 H0). simpl bind.
  intros [= <-]. rewrite drawdownOf_largest.
  split; [apply largestDrawdown_nonneg|]. split.
  - eexists. split; [reflexivity|]. split; [|reflexivity].
    unfold pricesOf. rewrite H0. reflexivity.
  - vm_compute. reflexivity.
Qed.

(** The theorem at the single asset with prices [100, 80, 90]. *)
Lemma calculateMaxDrawdown_witness :
  (0 <=? 0.2) = true /\
  exists values,
    portfolioValueSeries [assetOf "A" "A" [100; 80; 90]] [1] = Ok values /\
    0.2 = largestDrawdown values.
Proof.
  destruct (calculateMaxDrawdown_running_peak [assetOf "A" "A" [100; 80; 90]] [1] 0.2)
    as (H1 & (values & Hv & _ & Hr) & _).
  - vm_compute. reflexivity.
  - split; [exact H1|]. exists values. split; assumption.
Defined.

(** ** Normalized weights *)

Lemma SFleb_not_ltb x y : SFleb x y = true -> SFltb y x = false.
Proof.
  unfold SFltb, SFleb, SFcompare.
  destruct x as [[]|[]| |[] mx ex], y as [[]|[]| |[] my ey];
    simpl; try discriminate; try reflexivity; intros H1;
    sf_cmp; try discriminate; try reflexivity; try lia.
Qed.

Lemma leb_not_ltb x y : (x <=? y) = true -> (y <? x) = false.
Proof. rewrite ltb_spec, leb_spec. apply SFleb_not_ltb. Qed.

Lemma SFdiv_core_nonneg m1 e1 m2 e2 q e' l :
  SFdiv_core_binary prec emax (Zpos m1) e1 (Zpos m2) e2 = (q, e', l) -> (0 <= q)%Z.
Proof.
  unfold SFdiv_core_binary. cbv zeta.
  match goal with |- context [Z.div_eucl ?a ?b] =>
    assert (Ha : (0 <= a)%Z);
    [|pose proof (Z_div_mod a b ltac:(lia)) as Hd; destruct (Z.div_eucl a b) as [q' r']]
  end.
  - destruct (_ - _ - _)%Z; try lia. apply Z.shiftl_nonneg. lia.
  - intros [= <- _ _]. nia.
Qed.









(** ** The optimizer *)

Lemma SFltb_irrefl x : SFltb x x = false.
Proof.
  unfold SFltb, SFcompare. destruct x as [[]|[]| |[] m e]; simpl; try reflexivity;
    rewrite Z.compare_refl; change (Pos.compare_cont Eq m m) with (Pos.compare m m);
    rewrite Pos.compare_refl; reflexivity.
Qed.

Lemma ltb_irrefl x : (x <? x) = false.
Proof. rewrite ltb_spec. apply SFltb_irrefl. Qed.

Lemma randomWeights_length rand pos n : length (randomWeights rand pos n) = n.
Proof.
  unfold randomWeights, normalizeOver. rewrite !length_map, length_seq. reflexivity.
Qed.

Lemma evaluate_total assets ws :
  assets <> [] -> (length ws <= length assets)%nat ->
  exists m, evaluate assets ws = Ok m.
Proof.
  intros Hne Hl. unfold evaluate, firstReturns.
  destruct assets as [|a0 rest] eqn:E; [congruence|]. rewrite <- E in *.
  replace (at_ assets 0) with (Ok a0) by (rewrite E; reflexivity). simpl bind.
  apply calculatePortfolioMetrics_total; assumption.
Qed.

Lemma evaluate_candidate_total assets rand k :
  assets <> [] -> exists m, evaluate assets (candidate assets rand k) = Ok m.
Proof.
  intros H. apply evaluate_total; [assumption|].
  unfold candidate. rewrite randomWeights_length. lia.
Qed.

Lemma optimizeStep_evaluate assets rand it pos bestSharpe bestWeights :
  optimizeStep assets rand it (pos, bestSharpe, bestWeights) =
  (metrics <- evaluate assets (randomWeights rand pos (length assets)) ;;
   if gt (sharpeRatio metrics) bestSharpe
   then Ok ((pos + length assets)%nat, sharpeRatio metrics,
            randomWeights rand pos (length assets))
   else Ok ((pos + length assets)%nat, bestSharpe, bestWeights)).
Proof.
  unfold optimizeStep, evaluate. destruct (firstReturns assets); reflexivity.
Qed.

Lemma bestSoFar_step assets rand t st st' :
  bestSoFar assets rand t st ->
  optimizeStep assets rand t st = Ok st' ->
  bestSoFar assets rand (S t) st'.
Proof.
  destruct st as [[pos bs] bw]. intros (Hpos & Hmax & Hbest).
  rewrite optimizeStep_evaluate. subst pos. fold (candidate assets rand t).
  destruct (evaluate assets (candidate assets rand t)) as [mt|] eqn:Et; simpl; [|discriminate].
  unfold gt. destruct (bs <? sharpeRatio mt) eqn:Ec; intros [= <-].
  - split; [simpl; lia|]. split.
    + intros j mj Hj Ej.
      destruct (Nat.eq_dec j t) as [->|Hne].
      * rewrite Et in Ej. injection Ej as <-. apply ltb_irrefl.
      * destruct (sharpeRatio mt <? sharpeRatio mj) eqn:E; [|reflexivity].
        rewrite <- (Hmax j mj ltac:(lia) Ej). symmetry.
        eapply ltb_leb_trans; [exact Ec|apply ltb_leb, E].
    + right. exists t, mt. split; [lia|]. split; [exact Et|].
      split; [reflexivity|]. split; [reflexivity|].
      intros j mj Hj Ej.
      destruct (sharpeRatio mt <=? sharpeRatio mj) eqn:E; [|reflexivity].
      rewrite <- (Hmax j mj Hj Ej). symmetry.
      eapply ltb_leb_trans; [exact Ec|exact E].
  - split; [simpl; lia|]. split.
    + intros j mj Hj Ej.
      destruct (Nat.eq_dec j t) as [->|Hne].
      * rewrite Et in Ej. injection Ej as <-. exact Ec.
      * apply (Hmax j mj); [lia|exact Ej].
    + destruct Hbest as [Hb|(k & mk & Hk & Hrest)]; [left; exact Hb|].
      right. exists k, mk. split; [lia|exact Hrest].
Qed.

Lemma optimize_loop_total assets rand budget : forall start st,
  assets <> [] -> exists st', forM start budget (optimizeStep assets rand) st = Ok st'.
Proof.
  intros start st Hne. apply forM_total.
  intros i [[pos bs] bw] _. rewrite optimizeStep_evaluate.
  destruct (evaluate_total assets (randomWeights rand pos (length assets)) Hne) as [m ->].
  - rewrite randomWeights_length. lia.
  - simpl. destruct (gt _ _); eauto.
Qed.

Lemma optimizeWith_evaluate budget assets rand st :
  forM 0 budget (optimizeStep assets rand) (0%nat, neg_infinity, []) = Ok st ->
  optimizeWith budget assets rand = evaluate assets (snd st).
Proof.
  intros H. unfold optimizeWith. rewrite H. simpl bind.
  destruct st as [[pos bs] bw]. reflexivity.
Qed.

Lemma optimize_loop_invariant budget assets rand st :
  forM 0 budget (optimizeStep assets rand) (0%nat, neg_infinity, []) = Ok st ->
  bestSoFar assets rand budget st.
Proof.
  intros H.
  apply (forM_inv (bestSoFar assets rand) _ budget 0 _ st) in H; [exact H| |].
  - split; [reflexivity|]. split; [intros; lia|]. left. split; reflexivity.
  - intros i s s' _ Hs Hstep. eapply bestSoFar_step; eassumption.
Qed.

Lemma optimizeWith_max_sharpe budget assets rand :
  assets <> [] ->
  (exists j mj, (j < budget)%nat /\
      evaluate assets (candidate assets rand j) = Ok mj /\
      (neg_infinity <? sharpeRatio mj) = true) ->
  exists k mk,
    (k < budget)%nat /\
    evaluate assets (candidate assets rand k) = Ok mk /\
    optimizeWith budget assets rand = Ok mk /\
    (forall j mj, (j < budget)%nat ->
       evaluate assets (candidate assets rand j) = Ok mj ->
       (sharpeRatio mk <? sharpeRatio mj) = false) /\
    (forall j mj, (j < k)%nat ->
       evaluate assets (candidate assets rand j) = Ok mj ->
       (sharpeRatio mk <=? sharpeRatio mj) = false).
Proof.
  intros Hne (j0 & mj0 & Hj0 & Ej0 & Hgt).
  destruct (optimize_loop_total assets rand budget 0%nat (0%nat, neg_infinity, []) Hne)
    as [st Hst].
  pose proof (optimize_loop_invariant _ _ _ _ Hst) as Hinv.
  rewrite (optimizeWith_evaluate _ _ _ _ Hst).
  destruct st as [[pos bs] bw]. destruct Hinv as (_ & Hmax & [[-> ->]|(k & mk & Hk & Ek & -> & -> & Hfirst)]).
  - rewrite (Hmax j0 mj0 Hj0 Ej0) in Hgt. discriminate.
  - exists k, mk. simpl snd. repeat split; assumption.
Qed.

(** ** Sorting by volatility *)

Lemma SFltb_infinity x b : SFltb x b = true -> SFltb x (S754_infinity false) = true.
Proof.
  unfold SFltb, SFcompare.
  destruct x as [[]|[]| |[] mx ex], b as [[]|[]| |[] mb eb]; simpl;
    try discriminate; try reflexivity.
Qed.

Lemma ltb_infinity x b : (x <? b) = true -> (x <? infinity) = true.
Proof. rewrite !ltb_spec. apply SFltb_infinity. Qed.

Lemma finite_nonneg_not_nan x : finite_nonneg x = true -> Prim2SF x <> S754_nan.
Proof.
  intros H. apply finite_nonneg_spec in H.
  destruct H as [[s H]|(m & e & H)]; rewrite H; discriminate.
Qed.

Lemma ltb_false_leb a b :
  finite_nonneg a = true -> finite_nonneg b = true ->
  (b <? a) = false -> (a <=? b) = true.
Proof.
  intros Ha Hb. rewrite ltb_spec, leb_spec. intros H.
  destruct (SFleb (Prim2SF a) (Prim2SF b)) eqn:E; [reflexivity|].
  apply SFleb_total in E; try (apply finite_nonneg_not_nan; assumption).
  congruence.
Qed.

Lemma insertSorted_In {A} (cmp : A -> A -> float) a l x :
  In x (insertSorted cmp a l) <-> x = a \/ In x l.
Proof.
  induction l as [|b l IH]; simpl.
  - intuition.
  - destruct (gt (cmp a b) 0); simpl; rewrite ?IH; intuition.
Qed.

Lemma sort_In {A} (cmp : A -> A -> float) l x : In x (sort cmp l) <-> In x l.
Proof.
  induction l as [|a l IH]; simpl; [reflexivity|].
  rewrite insertSorted_In, IH. intuition.
Qed.

Lemma insertSorted_length {A} (cmp : A -> A -> float) a l :
  length (insertSorted cmp a l) = S (length l).
Proof.
  induction l as [|b l IH]; simpl; [reflexivity|].
  destruct (gt (cmp a b) 0); simpl; rewrite ?IH; reflexivity.
Qed.

Lemma sort_length {A} (cmp : A -> A -> float) l : length (sort cmp l) = length l.
Proof.
  induction l as [|a l IH]; simpl; [reflexivity|].
  rewrite insertSorted_length, IH. reflexivity.
Qed.

Lemma insertSorted_sorted a l :
  finite_nonneg (fp_volatility a) = true ->
  Forall (fun p => finite_nonneg (fp_volatility p) = true) l ->
  StronglySorted volatilityLe l ->
  StronglySorted volatilityLe (insertSorted byVolatility a l).
Proof.
  intros Ha Hl Hs. induction Hs as [|b l Hs IH Hb]; simpl.
  - constructor; constructor.
  - inversion Hl as [|? ? Hfb Hfl]; subst.
    unfold byVolatility at 1, gt. rewrite sub_pos_iff by assumption.
    destruct (fp_volatility b <? fp_volatility a) eqn:E.
    + constructor; [apply IH; assumption|].
      apply Forall_forall. intros x Hx. apply insertSorted_In in Hx.
      destruct Hx as [->|Hx]; [apply ltb_leb, E|].
      rewrite Forall_forall in Hb. apply Hb, Hx.
    + assert (Hab : volatilityLe a b) by (apply ltb_false_leb; assumption).
      constructor; [constructor; assumption|].
      constructor; [exact Hab|].
      apply Forall_forall. intros x Hx. rewrite Forall_forall in Hb.
      unfold volatilityLe in *. eapply leb_trans; [exact Hab|apply Hb, Hx].
Qed.

Lemma sort_sorted l :
  Forall (fun p => finite_nonneg (fp_volatility p) = true) l ->
  StronglySorted volatilityLe (sort byVolatility l).
Proof.
  induction l as [|a l IH]; intros H; simpl; [constructor|].
  inversion H; subst. apply insertSorted_sorted; auto.
  apply Forall_forall. intros x Hx. apply sort_In in Hx.
  rewrite Forall_forall in H3. auto.
Qed.

(** ** The frontier sampler *)

Lemma sub_nan x : x - nan = nan.
Proof.
  apply Prim2SF_inj. rewrite sub_spec. change (Prim2SF nan) with S754_nan.
  destruct (Prim2SF x) as [[]|[]| |[] m e]; reflexivity.
Qed.

Lemma withinTolerance_nan m : withinTolerance m nan = false.
Proof. unfold withinTolerance. rewrite sub_nan. reflexivity. Qed.

Lemma frontierStep_evaluate assets rand target it pos bestVolatility bestWeights :
  frontierStep assets rand target it (pos, bestVolatility, bestWeights) =
  (metrics <- evaluate assets (randomWeights rand pos (length assets)) ;;
   if withinTolerance metrics target && (volatility metrics <? bestVolatility)
   then Ok ((pos + length assets)%nat, volatility metrics,
            randomWeights rand pos (length assets))
   else Ok ((pos + length assets)%nat, bestVolatility, bestWeights)).
Proof.
  unfold frontierStep, evaluate. destruct (firstReturns assets); reflexivity.
Qed.

Lemma keptSoFar_step assets rand target base t st st' :
  keptSoFar assets rand target base t st ->
  frontierStep assets rand target t st = Ok st' ->
  keptSoFar assets rand target base (S t) st'.
Proof.
  destruct st as [[pos bv] bw]. intros (Hpos & Hkept).
  rewrite frontierStep_evaluate. subst pos. fold (candidate assets rand (base + t)).
  destruct (evaluate assets (candidate assets rand (base + t))) as [mt|] eqn:Et;
    simpl; [|discriminate].
  destruct (withinTolerance mt target) eqn:Ew; simpl.
  - destruct (volatility mt <? bv) eqn:Ev; intros [= <-].
    + split; [lia|]. right. exists t, mt. split; [lia|].
      split; [exact Et|]. split; [reflexivity|]. split; [exact Ew|].
      eapply ltb_infinity, Ev.
    + split; [lia|]. destruct Hkept as [H|(k & mk & Hk & H)]; [left; exact H|].
      right. exists k, mk. split; [lia|exact H].
  - intros [= <-]. split; [lia|].
    destruct Hkept as [H|(k & mk & Hk & H)]; [left; exact H|].
    right. exists k, mk. split; [lia|exact H].
Qed.

Lemma frontier_inner_total assets rand target perPoint : forall start st,
  assets <> [] ->
  exists st', forM start perPoint (frontierStep assets rand target) st = Ok st'.
Proof.
  intros start st Hne. apply forM_total.
  intros i [[pos bv] bw] _. rewrite frontierStep_evaluate.
  destruct (evaluate_total assets (randomWeights rand pos (length assets)) Hne) as [m ->].
  - rewrite randomWeights_length. lia.
  - simpl. destruct (_ && _); eauto.
Qed.

Lemma frontier_inner_invariant assets rand target perPoint base bv0 st :
  forM 0 perPoint (frontierStep assets rand target)
    ((base * length assets)%nat, bv0, []) = Ok st ->
  keptSoFar assets rand target base perPoint st.
Proof.
  intros H.
  apply (forM_inv (keptSoFar assets rand target base) _ perPoint 0 _ st) in H;
    [exact H| |].
  - split; [rewrite Nat.add_0_r; reflexivity|]. left. reflexivity.
  - intros i s s' _ Hs Hstep. eapply keptSoFar_step; eassumption.
Qed.

Lemma evaluate_weights assets ws m : evaluate assets ws = Ok m -> weights m = ws.
Proof.
  unfold evaluate. destruct (firstReturns assets) as [market|]; simpl; [|discriminate].
  apply calculatePortfolioMetrics_weights.
Qed.

Lemma hasCandidate_true perPoint assets rand numPoints i k mk :
  (k < perPoint)%nat ->
  evaluate assets (candidate assets rand (i * perPoint + k)) = Ok mk ->
  withinTolerance mk (targetReturnOf numPoints i) = true ->
  hasCandidate perPoint assets rand numPoints i = true.
Proof.
  intros Hk Ek Hw. unfold hasCandidate. apply existsb_exists.
  exists k. split; [apply in_seq; lia|]. rewrite Ek. exact Hw.
Qed.

Lemma pointOf_mono perPoint assets rand numPoints i i' p :
  (i <= i')%nat ->
  pointOf perPoint assets rand numPoints i p ->
  pointOf perPoint assets rand numPoints i' p.
Proof.
  intros Hi (j & k & m & Hj & H). exists j, k, m. split; [lia|exact H].
Qed.

Lemma forM_inv_total {St} (P : nat -> St -> Prop) (body : nat -> St -> result St)
  count : forall start s,
  P start s ->
  (forall i s, (start <= i < start + count)%nat -> P i s ->
               exists s', body i s = Ok s' /\ P (S i) s') ->
  exists r, forM start count body s = Ok r /\ P (start + count)%nat r.
Proof.
  induction count as [|n IH]; intros start s H0 Hstep; simpl.
  - exists s. rewrite Nat.add_0_r. split; [reflexivity|assumption].
  - destruct (Hstep start s ltac:(lia) H0) as (s' & -> & Hs'). simpl.
    replace (start + S n)%nat with (S start + n)%nat by lia.
    apply IH; [exact Hs'|]. intros; apply Hstep; [lia|assumption].
Qed.

Lemma filter_seq_S (f : nat -> bool) i :
  length (filter f (seq 0 (S i))) =
  (length (filter f (seq 0 i)) + if f i then 1 else 0)%nat.
Proof.
  rewrite seq_S, filter_app, length_app. simpl. destruct (f i); reflexivity.
Qed.

Lemma frontierSoFar_step perPoint assets rand numPoints i st :
  assets <> [] ->
  frontierSoFar perPoint assets rand numPoints i st ->
  exists st',
    frontierPointStep perPoint assets rand numPoints i st = Ok st' /\
    frontierSoFar perPoint assets rand numPoints (S i) st'.
Proof.
  intros Hne. destruct st as [pos pts]. intros (Hpos & Hpts & Hlen).
  unfold frontierPointStep. subst pos.
  destruct (frontier_inner_total assets rand (targetReturnOf numPoints i) perPoint 0%nat
              ((i * perPoint * length assets)%nat, infinity, []) Hne)
    as [[[pos' bv] bw] Einner].
  rewrite Einner. simpl bind.
  apply frontier_inner_invariant in Einner. destruct Einner as (Hpos' & Hkept).
  assert (Hmono : Forall (pointOf perPoint assets rand numPoints (S i)) pts).
  { eapply Forall_impl; [|exact Hpts]. intros p. apply pointOf_mono. lia. }
  pose proof (filter_seq_S (hasCandidate perPoint assets rand numPoints) i) as Hfilter.
  destruct Hkept as [->|(k & mk & Hk & Ek & -> & Hw & Hv)].
  - simpl. eexists. split; [reflexivity|].
    split; [lia|]. split; [exact Hmono|]. lia.
  - assert (Hl : (0 <? length (candidate assets rand (i * perPoint + k)))%nat = true).
    { unfold candidate. rewrite randomWeights_length. apply Nat.ltb_lt.
      destruct assets; [congruence|simpl; lia]. }
    rewrite Hl. pose proof Ek as Ek'. unfold evaluate in Ek'.
    destruct (firstReturns assets) as [market|]; simpl in Ek'; [|discriminate].
    simpl bind. rewrite Ek'. simpl bind. eexists. split; [reflexivity|].
    split; [lia|]. split.
    + apply Forall_app. split; [exact Hmono|]. constructor; [|constructor].
      exists i, k, mk. simpl. repeat split; try assumption; lia.
    + rewrite length_app, Hfilter.
      rewrite (hasCandidate_true _ _ _ _ _ _ _ Hk Ek Hw). simpl. lia.
Qed.

Lemma frontier_outer perPoint assets rand numPoints count :
  assets <> [] ->
  exists st,
    forM 0 count (frontierPointStep perPoint assets rand numPoints) (0%nat, []) = Ok st /\
    frontierSoFar perPoint assets rand numPoints count st.
Proof.
  intros Hne.
  apply (forM_inv_total (frontierSoFar perPoint assets rand numPoints) _ count 0).
  - split; [reflexivity|]. split; [constructor|]. simpl. lia.
  - intros i s _ Hs. apply frontierSoFar_step; assumption.
Qed.

Lemma evaluate_volatility assets ws m :
  evaluate assets ws = Ok m -> volatility m = nan \/ (0 <=? volatility m) = true.
Proof.
  unfold evaluate. destruct (firstReturns assets) as [market|]; simpl; [|discriminate].
  intros H. apply calculatePortfolioMetrics_volatility in H.
  destruct H as (C & v & _ & _ & ->). apply sqrt_nan_or_nonneg.
Qed.

Lemma pointOf_finite perPoint assets rand numPoints bound p :
  pointOf perPoint assets rand numPoints bound p ->
  finite_nonneg (fp_volatility p) = true.
Proof.
  intros (i & k & m & _ & _ & _ & Em & _ & -> & _ & _ & Hv).
  unfold finite_nonneg. rewrite Hv, andb_true_r.
  destruct (evaluate_volatility _ _ _ Em) as [Hn|Hn]; [|exact Hn].
  rewrite Hn in Hv. discriminate Hv.
Qed.

Lemma frontierWith_spec perPoint assets numPoints rand :
  assets <> [] ->
  exists frontier,
    frontierWith perPoint assets numPoints rand = Ok frontier /\
    StronglySorted volatilityLe frontier /\
    (forall p, In p frontier ->
       pointOf perPoint assets rand numPoints (Z.to_nat numPoints) p) /\
    (length frontier
     <= length (filter (hasCandidate perPoint assets rand numPoints)
                  (seq 0 (Z.to_nat numPoints))))%nat.
Proof.
  intros Hne. unfold frontierWith.
  destruct (frontier_outer perPoint assets rand numPoints (Z.to_nat numPoints) Hne)
    as ([pos pts] & -> & (_ & Hpts & Hlen)).
  simpl bind. eexists. split; [reflexivity|]. simpl snd.
  split; [|split].
  - apply sort_sorted. eapply Forall_impl; [|exact Hpts].
    intros p. apply pointOf_finite.
  - intros p Hp. apply sort_In in Hp. rewrite Forall_forall in Hpts. auto.
  - rewrite sort_length. exact Hlen.
Qed.

Lemma optimize_loop_rejecting assets rand budget :
  assets <> [] ->
  (forall pos m,
      evaluate assets (randomWeights rand pos (length assets)) = Ok m ->
      gt (sharpeRatio m) neg_infinity = false) ->
  forall start pos,
    forM start budget (optimizeStep assets rand) (pos, neg_infinity, [])
    = Ok ((pos + budget * length assets)%nat, neg_infinity, []).
Proof.
  intros Hne Hrej. induction budget as [|n IH]; intros start pos; cbn [forM].
  - f_equal. f_equal. f_equal. lia.
  - rewrite optimizeStep_evaluate.
    destruct (evaluate_total assets (randomWeights rand pos (length assets)) Hne)
      as [m Hm]; [rewrite randomWeights_length; lia|].
    rewrite Hm. simpl bind. rewrite (Hrej pos m Hm). simpl bind.
    rewrite IH. f_equal. f_equal. f_equal. lia.
Qed.

Lemma optimizeWith_nothing_kept budget assets rand :
  assets <> [] ->
  (forall pos m,
      evaluate assets (randomWeights rand pos (length assets)) = Ok m ->
      gt (sharpeRatio m) neg_infinity = false) ->
  optimizeWith budget assets rand = evaluate assets [].
Proof.
  intros Hne Hrej. unfold optimizeWith.
  rewrite (optimize_loop_rejecting assets rand budget Hne Hrej). reflexivity.
Qed.

Lemma optimizePortfolio_single_return :
  optimizePortfolio [assetOf "A" "A" [100; 80]] (fun _ => 0.5)
  = Ok {| expectedReturn := 0; volatility := 0; sharpeRatio := neg_infinity;
          beta := nan; var95 := -0; maxDrawdown := 0; weights := [] |}.
Proof.
  unfold optimizePortfolio. rewrite optimizeWith_nothing_kept.
  - vm_compute. reflexivity.
  - discriminate.
  - intros pos m. change (randomWeights (fun _ => 0.5) pos 1) with [1].
    vm_compute. intros [= <-]. reflexivity.
Qed.

(** C5, amended.  For a non-empty asset list, if at least one of the 10,000
    sampled candidates has a Sharpe ratio above [-Infinity], then
    [optimizePortfolio] returns the metrics of a sampled candidate [k] such
    that no sampled candidate has a greater Sharpe ratio and no earlier one
    has a Sharpe ratio greater than or equal to it (candidates whose Sharpe
    ratio is NaN never compare). *)
Theorem optimizePortfolio_first_max_sharpe (assets : list Asset) (rand : Random) :
  assets <> [] ->
  (exists j mj, (j < 10000)%nat /\
      evaluate assets (candidate assets rand j) = Ok mj /\
      (neg_infinity <? sharpeRatio mj) = true) ->
  exists k mk,
    (k < 10000)%nat /\
    evaluate assets (candidate assets rand k) = Ok mk /\
    optimizePortfolio assets rand = Ok mk /\
    (forall j mj, (j < 10000)%nat ->
       evaluate assets (candidate assets rand j) = Ok mj ->
       (sharpeRatio mk <? sharpeRatio mj) = false) /\
    (forall j mj, (j < k)%nat ->
       evaluate assets (candidate assets rand j) = Ok mj ->
       (sharpeRatio mk <=? sharpeRatio mj) = false).
Proof. apply optimizeWith_max_sharpe. Qed.

(** The theorem on the sample assets and stream. *)
Lemma optimizePortfolio_witness :
  exists k mk,
    (k < 10000)%nat /\
    evaluate sampleAssets (candidate sampleAssets sampleRandom k) = Ok mk /\
    optimizePortfolio sampleAssets sampleRandom = Ok mk /\
    (forall j mj, (j < 10000)%nat ->
       evaluate sampleAssets (candidate sampleAssets sampleRandom j) = Ok mj ->
       (sharpeRatio mk <? sharpeRatio mj) = false) /\
    (forall j mj, (j < k)%nat ->
       evaluate sampleAssets (candidate sampleAssets sampleRandom j) = Ok mj ->
       (sharpeRatio mk <=? sharpeRatio mj) = false).
Proof.
  apply (optimizePortfolio_first_max_sharpe sampleAssets sampleRandom).
  - discriminate.
  - exists 0%nat. eexists. split; [vm_compute; lia|].
    split; [vm_compute; reflexivity|]. vm_compute. reflexivity.
Defined.

(** C5, counterexample.  One asset with two prices has a single return, so
    every candidate's Sharpe ratio is NaN; no candidate is kept and the
    result is the metrics of the empty weight vector, which no sampled
    candidate has. *)
Lemma optimizePortfolio_keeps_no_candidate :
  exists best,
    optimizePortfolio [assetOf "A" "A" [100; 80]] (fun _ => 0.5) = Ok best /\
    weights best = [] /\
    sharpeRatio best = neg_infinity /\
    (forall k, evaluate [assetOf "A" "A" [100; 80]]
                 (candidate [assetOf "A" "A" [100; 80]] (fun _ => 0.5) k)
               <> Ok best).
Proof.
  eexists. split; [apply optimizePortfolio_single_return|].
  split; [reflexivity|]. split; [reflexivity|].
  intros k H. apply evaluate_weights in H.
  apply (f_equal (@length float)) in H. unfold candidate in H.
  rewrite randomWeights_length in H. discriminate H.
Qed.








Lemma hasCandidate_nan_target perPoint assets rand numPoints i :
  targetReturnOf numPoints i = nan ->
  hasCandidate perPoint assets rand numPoints i = false.
Proof.
  intros Ht. unfold hasCandidate. rewrite Ht.
  induction (seq 0 perPoint) as [|k l IH]; simpl; [reflexivity|].
  rewrite IH, orb_false_r.
  destruct (evaluate _ _); [apply withinTolerance_nan|reflexivity].
Qed.

(** C10, amended.  [generateEfficientFrontier] returns the empty sequence
    for every asset list when [numPoints <= 0], and for every non-empty asset
    list when [numPoints = 1]: the single target is then NaN (0 / 0), so no
    candidate passes the tolerance test.  With 2 or with the default 50
    points the first target is 0.05 and the last is 0.3. *)
Theorem generateEfficientFrontier_at_most_one_point :
  (forall assets numPoints rand,
      (numPoints <= 0)%Z -> generateEfficientFrontier assets numPoints rand = Ok []) /\
  (forall assets rand,
      assets <> [] -> generateEfficientFrontier assets 1 rand = Ok []) /\
  targetReturnOf 1 0 = nan /\
  (targetReturnOf 2 0 = 0.05 /\ targetReturnOf 2 1 = 0.3) /\
  (targetReturnOf 50 0 = 0.05 /\ targetReturnOf 50 49 = 0.3).
Proof.
  split; [|split; [|split; [|split; split]]];
    [| |vm_compute; reflexivity..].
  - intros assets numPoints rand H.
    unfold generateEfficientFrontier, frontierWith.
    replace (Z.to_nat numPoints) with 0%nat by lia. reflexivity.
  - intros assets rand Hne.
    destruct (frontierWith_spec 1000 assets 1 rand Hne) as (f & Hf & _ & _ & Hl).
    unfold generateEfficientFrontier. rewrite Hf.
    change (seq 0 (Z.to_nat 1)) with [0%nat] in Hl. simpl filter in Hl.
    rewrite hasCandidate_nan_target in Hl by (vm_compute; reflexivity).
    destruct f; [reflexivity|simpl in Hl; lia].
Qed.

(** The theorem on the sample assets, with -3 points and with 1 point. *)
Lemma generateEfficientFrontier_one_point_witness :
  generateEfficientFrontier sampleAssets (-3) sampleRandom = Ok [] /\
  generateEfficientFrontier sampleAssets 1 sampleRandom = Ok [].
Proof.
  destruct generateEfficientFrontier_at_most_one_point as (H0 & H1 & _).
  split.
  - apply H0. lia.
  - apply H1. discriminate.
Defined.

(** C10, counterexample.  With one point and the empty asset list the call
    throws instead of returning the empty sequence. *)
Lemma generateEfficientFrontier_one_point_empty_assets :
  generateEfficientFrontier [] 1 sampleRandom = TypeError.
Proof. reflexivity. Qed.

(** * Further properties of the code *)

(** ** Mock price data *)

Lemma SFeqb_zero_ltb x y :
  SFeqb x (S754_zero false) = true ->
  SFltb (S754_zero false) y = true -> SFltb x y = true.
Proof.
  unfold SFeqb, SFltb, SFcompare.
  destruct x as [[]|[]| |[] mx ex], y as [[]|[]| |[] my ey];
    simpl; try discriminate; try reflexivity.
Qed.

Lemma ltb_asym x y : (x <? y) = true -> (y <? x) = false.
Proof. intros H. apply leb_not_ltb, ltb_leb, H. Qed.

Lemma mathMax_floor x : (mathMax x 0.01 <? 0.01) = false.
Proof.
  unfold mathMax.
  destruct (is_nan x || is_nan 0.01); [reflexivity|].
  destruct (x <? 0.01) eqn:E1; [reflexivity|].
  destruct (0.01 <? x) eqn:E2; [exact E1|].
  destruct (x =? 0) eqn:E3; [|exact E1].
  exfalso. rewrite ltb_spec in E1. rewrite FloatAxioms.eqb_spec in E3.
  change (Prim2SF 0) with (S754_zero false) in E3.
  rewrite (SFeqb_zero_ltb _ (Prim2SF 0.01) E3) in E1; [discriminate|reflexivity].
Qed.

Lemma for_push_state {A} (g : nat -> list A -> A) count : forall start acc,
  length (for_ start count (fun i acc => acc ++ [g i acc]) acc)
  = (length acc + count)%nat.
Proof.
  induction count as [|n IH]; intros start acc; simpl; [lia|].
  rewrite IH, length_app. simpl. lia.
Qed.

Lemma for_push_prefix {A} (g : nat -> list A -> A) count : forall start acc,
  exists tail,
    for_ start count (fun i acc => acc ++ [g i acc]) acc = acc ++ tail /\
    length tail = count.
Proof.
  induction count as [|n IH]; intros start acc; simpl.
  - exists []. rewrite app_nil_r. split; reflexivity.
  - destruct (IH (S start) (acc ++ [g start acc])) as (tail & -> & Hl).
    exists (g start acc :: tail). rewrite <- app_assoc. simpl. split; [reflexivity|lia].
Qed.

Lemma for_push_all {A} (P : A -> Prop) (g : nat -> list A -> A) count :
  (forall i acc, P (g i acc)) ->
  forall start acc tail,
    for_ start count (fun i acc => acc ++ [g i acc]) acc = acc ++ tail ->
    Forall P tail.
Proof.
  intros Hg. induction count as [|n IH]; intros start acc tail; simpl.
  - intros H. rewrite <- (app_nil_r acc) in H at 1. apply app_inv_head in H.
    subst. constructor.
  - destruct (for_push_prefix g n (S start) (acc ++ [g start acc])) as (t & Ht & _).
    rewrite Ht, <- app_assoc. intros H. apply app_inv_head in H. subst tail.
    constructor; [apply Hg|]. eapply IH. exact Ht.
Qed.

Lemma generateMockPriceData_loop rand pos initialPrice days :
  generateMockPriceData rand pos initialPrice days
  = for_ 1 (days - 1) (fun i prices => prices ++ [mockStep rand pos i prices])
      [initialPrice].
Proof. reflexivity. Qed.

Lemma generateMockPriceData_parts rand pos initialPrice days :
  exists tail,
    generateMockPriceData rand pos initialPrice days = initialPrice :: tail /\
    length tail = (days - 1)%nat /\
    Forall (fun p => (p <? 0.01) = false) tail.
Proof.
  rewrite generateMockPriceData_loop.
  destruct (for_push_prefix (mockStep rand pos) (days - 1) 1 [initialPrice])
    as (tail & E & Hl).
  exists tail. split; [exact E|]. split; [exact Hl|].
  exact (for_push_all (fun p => (p <? 0.01) = false) (mockStep rand pos) (days - 1)
           (fun i acc => mathMax_floor _) 1 [initialPrice] tail E).
Qed.

Lemma generateMockPriceData_length rand pos initialPrice days :
  length (generateMockPriceData rand pos initialPrice days) = Nat.max 1 days.
Proof.
  destruct (generateMockPriceData_parts rand pos initialPrice days) as (t & -> & Hl & _).
  simpl length. lia.
Qed.

Lemma generateMockPriceData_head rand pos initialPrice days :
  idx (generateMockPriceData rand pos initialPrice days) 0 = initialPrice.
Proof.
  destruct (generateMockPriceData_parts rand pos initialPrice days) as (t & -> & _).
  reflexivity.
Qed.

(** X1.  [generateMockPriceData] returns [max(days, 1)] prices, the first
    being the initial price; no later price is below the floor 0.01 (a later
    price is at least 0.01, or NaN). *)
Theorem generateMockPriceData_shape
  (rand : Random) (pos : nat) (initialPrice : float) (days : nat) :
  length (generateMockPriceData rand pos initialPrice days) = Nat.max 1 days /\
  idx (generateMockPriceData rand pos initialPrice days) 0 = initialPrice /\
  (forall i, (1 <= i < Nat.max 1 days)%nat ->
     (idx (generateMockPriceData rand pos initialPrice days) i <? 0.01) = false).
Proof.
  split; [apply generateMockPriceData_length|].
  split; [apply generateMockPriceData_head|].
  destruct (generateMockPriceData_parts rand pos initialPrice days)
    as (tail & -> & Hl & Hall).
  intros i Hi. destruct i as [|i]; [lia|]. unfold idx.
  change (nth (S i) (initialPrice :: tail) nan) with (nth i tail nan).
  rewrite Forall_forall in Hall. apply Hall. apply nth_In. lia.
Qed.

(** ** Default assets *)

Lemma createAssets_symbols rand data : forall pos,
  map symbol (createAssets rand pos data) = map ad_symbol data.
Proof.
  induction data as [|d data IH]; intros pos; [reflexivity|].
  cbn [createAssets map symbol]. rewrite IH. reflexivity.
Qed.

Lemma createAssets_base rand data : forall pos,
  map (fun a => idx (prices a) 0) (createAssets rand pos data)
  = map ad_basePrice data.
Proof.
  induction data as [|d data IH]; intros pos; [reflexivity|].
  cbn [createAssets map prices]. rewrite IH, generateMockPriceData_head.
  reflexivity.
Qed.

Lemma createAssets_each rand data : forall pos,
  Forall (fun a => length (prices a) = 252%nat /\
                   length (returns a) = 251%nat /\
                   returns a = calculateReturns (prices a) /\
                   weight a = None)
    (createAssets rand pos data).
Proof.
  induction data as [|d data IH]; intros pos; [constructor|].
  cbn [createAssets]. constructor; [|apply IH].
  cbn [prices returns weight].
  assert (H : length (generateMockPriceData rand pos (ad_basePrice d) 252) = 252%nat).
  { rewrite generateMockPriceData_length. reflexivity. }
  split; [exact H|]. split; [|split; reflexivity].
  unfold calculateReturns. rewrite returnsOver_length, H. reflexivity.
Qed.

(** X2.  [createDefaultAssets] returns the eight assets of its table, in
    order; each has 252 prices starting at its base price, the 251 returns
    that [calculateReturns] computes from those prices, and no weight. *)
Theorem createDefaultAssets_shape (rand : Random) (pos : nat) :
  map symbol (createDefaultAssets rand pos)
  = ["SPY"; "QQQ"; "TLT"; "GLD"; "EEM"; "VNQ"; "EFA"; "VTI"]%string /\
  map (fun a => idx (prices a) 0) (createDefaultAssets rand pos)
  = [450; 380; 100; 180; 50; 90; 75; 230] /\
  Forall (fun a => length (prices a) = 252%nat /\
                   length (returns a) = 251%nat /\
                   returns a = calculateReturns (prices a) /\
                   weight a = None)
    (createDefaultAssets rand pos).
Proof.
  unfold createDefaultAssets.
  split; [apply createAssets_symbols|].
  split; [apply createAssets_base|apply createAssets_each].
Qed.

(** ** Portfolio returns *)

Lemma calculatePortfolioReturns_values returns ws r0 :
  nth_error returns 0 = Some r0 ->
  (length ws <= length returns)%nat ->
  calculatePortfolioReturns returns ws
  = Ok (map (periodReturnAt returns ws) (seq 0 (length r0))).
Proof.
  intros H0 Hl. unfold calculatePortfolioReturns. rewrite (at_Some _ _ _ H0).
  simpl bind. erewrite forM_ok.
  - rewrite for_push. reflexivity.
  - intros i acc Hi. simpl.
    erewrite (forM_ok _ (fun j pr => pr + idx ws j * idx (nth j returns []) i)).
    + simpl bind. rewrite for_fold. reflexivity.
    + intros j pr Hj. rewrite (at_lt returns j []) by lia. reflexivity.
Qed.

Lemma calculatePortfolioReturns_throws returns ws r0 :
  nth_error returns 0 = Some r0 -> r0 <> [] ->
  (length returns < length ws)%nat ->
  calculatePortfolioReturns returns ws = TypeError.
Proof.
  intros H0 Hne Hl. unfold calculatePortfolioReturns. rewrite (at_Some _ _ _ H0).
  simpl bind. apply forM_error; [|destruct r0; [congruence|simpl; lia]].
  intros i acc _.
  rewrite (forM_error_at _ _ _ _ (length returns)); [reflexivity|lia|].
  intros s. rewrite at_ge by lia. reflexivity.
Qed.

(** X3.  [calculatePortfolioReturns] throws exactly when there is no return
    series, or when the first series is non-empty and the weight vector is
    longer than the list of series.  Otherwise it returns one value per
    period of the first series, the value at [t] being the sum over the
    weights of [weight[j] * return[j][t]]. *)
Theorem calculatePortfolioReturns_behaviour
  (returns : list (list float)) (ws : list float) :
  (calculatePortfolioReturns returns ws = TypeError <->
   returns = [] \/
   (nth 0 returns [] <> [] /\ (length returns < length ws)%nat)) /\
  (forall portfolioReturns,
      calculatePortfolioReturns returns ws = Ok portfolioReturns ->
      length portfolioReturns = length (nth 0 returns []) /\
      ((length ws <= length returns)%nat ->
       forall t, (t < length portfolioReturns)%nat ->
                 idx portfolioReturns t = periodReturnAt returns ws t)).
Proof.
  destruct returns as [|r0 rest] eqn:E.
  - split; [split; [left; reflexivity|reflexivity]|]. intros pr H. discriminate H.
  - rewrite <- E. assert (H0 : nth_error returns 0 = Some r0) by (rewrite E; reflexivity).
    assert (Hn : nth 0 returns [] = r0) by (rewrite E; reflexivity). rewrite Hn.
    destruct (Nat.le_gt_cases (length ws) (length returns)) as [Hl|Hl].
    + rewrite (calculatePortfolioReturns_values returns ws r0 H0 Hl).
      split.
      * split; [discriminate|]. intros [H|[_ H]]; [rewrite E in H; discriminate|lia].
      * intros pr [= <-]. rewrite length_map, length_seq. split; [reflexivity|].
        intros _ t Ht. unfold idx.
        rewrite (nth_indep _ nan (periodReturnAt returns ws 0))
          by (rewrite length_map, length_seq; exact Ht).
        rewrite map_nth, seq_nth by exact Ht. reflexivity.
    + destruct r0 as [|x r0'] eqn:E0.
      * unfold calculatePortfolioReturns. rewrite (at_Some _ _ _ H0). simpl.
        split.
        -- split; [discriminate|]. intros [H|[H _]]; [rewrite E in H; discriminate|congruence].
        -- intros pr [= <-]. split; [reflexivity|]. intros; lia.
      * rewrite <- E0 in *.
        rewrite (calculatePortfolioReturns_throws returns ws r0 H0) by (subst; congruence || assumption).
        split; [|intros pr H; discriminate H].
        split; [|reflexivity]. intros _. right. split; [subst; discriminate|exact Hl].
Qed.

(** ** Beta of a series against itself *)

Lemma SFdiv_core_self m e :
  SFdiv_core_binary prec emax (Zpos m) e (Zpos m) e
  = (9007199254740992%Z, (-53)%Z, loc_Exact).
Proof.
  unfold SFdiv_core_binary. cbv zeta.
  replace (Zdigits2 (Zpos m) + e - (Zdigits2 (Zpos m) + e))%Z with 0%Z by lia.
  replace (e - e)%Z with 0%Z by lia.
  change (Z.min (fexp prec emax 0) 0) with (-53)%Z.
  change (0 - -53)%Z with 53%Z. cbv iota.
  rewrite Z.shiftl_mul_pow2 by lia.
  rewrite (Z.mul_comm (Zpos m)).
  pose proof (Z.div_mul (2 ^ 53) (Zpos m) ltac:(lia)) as Hq.
  pose proof (Z.mod_mul (2 ^ 53) (Zpos m) ltac:(lia)) as Hr.
  unfold Z.div, Z.modulo in Hq, Hr.
  destruct (Z.div_eucl (2 ^ 53 * Zpos m) (Zpos m)) as [q r]. subst q r.
  unfold new_location. destruct (Z.even (Zpos m)); reflexivity.
Qed.

Lemma SFdiv_self s m e :
  SF64div (S754_finite s m e) (S754_finite s m e) = Prim2SF 1.
Proof.
  unfold SF64div, SFdiv. rewrite SFdiv_core_self, xorb_nilpotent. reflexivity.
Qed.

Lemma div_self x : x / x = 1 \/ x / x = nan.
Proof.
  destruct (Prim2SF x) as [s|s| |s m e] eqn:E.
  - right. apply Prim2SF_inj. rewrite div_spec, E. reflexivity.
  - right. apply Prim2SF_inj. rewrite div_spec, E. reflexivity.
  - right. apply Prim2SF_inj. rewrite div_spec, E. reflexivity.
  - left. apply Prim2SF_inj. rewrite div_spec, E. apply SFdiv_self.
Qed.

Lemma div_self_finite x :
  (abs x <? infinity) = true -> (x =? 0) = false -> x / x = 1.
Proof.
  rewrite ltb_spec, abs_spec, FloatAxioms.eqb_spec. intros H1 H2.
  apply Prim2SF_inj. rewrite div_spec.
  destruct (Prim2SF x) as [[]|[]| |s m e] eqn:E;
    try (vm_compute in H1; discriminate H1);
    try (vm_compute in H2; discriminate H2).
  apply SFdiv_self.
Qed.

Lemma beta_loop_same r m : forall n start acc,
  for_ start n
    (fun i '(covariance, marketVariance) =>
       (covariance + (idx r i - m) * (idx r i - m),
        marketVariance + (idx r i - m) * (idx r i - m)))
    (acc, acc)
  = (fold_left (fun a i => a + (idx r i - m) * (idx r i - m)) (seq start n) acc,
     fold_left (fun a i => a + (idx r i - m) * (idx r i - m)) (seq start n) acc).
Proof.
  induction n as [|n IH]; intros start acc; simpl; [reflexivity|]. apply IH.
Qed.

Lemma calculateBeta_self_ratio r :
  calculateBeta r r = squaredDeviations r / squaredDeviations r.
Proof.
  unfold calculateBeta, squaredDeviations. rewrite beta_loop_same. reflexivity.
Qed.

(** X4.  The beta of a return series against itself is the ratio of its sum
    of squared deviations to itself: exactly 1 when that sum is a non-zero
    finite number, NaN otherwise. *)
Theorem calculateBeta_self (r : list float) :
  calculateBeta r r = squaredDeviations r / squaredDeviations r /\
  (calculateBeta r r = 1 \/ calculateBeta r r = nan) /\
  ((abs (squaredDeviations r) <? infinity) = true ->
   (squaredDeviations r =? 0) = false ->
   calculateBeta r r = 1).
Proof.
  rewrite calculateBeta_self_ratio. split; [reflexivity|].
  split; [apply div_self|apply div_self_finite].
Qed.

(** The theorem at a concrete input. *)
Lemma calculateBeta_self_witness :
  calculateBeta [0.01; -0.02; 0.03] [0.01; -0.02; 0.03] = 1.
Proof.
  apply (calculateBeta_self [0.01; -0.02; 0.03]); reflexivity.
Defined.

(** ** Value at risk *)

Lemma signed_true_nonpositive x : signed true x -> nonpositive x.
Proof. destruct 1; constructor. Qed.

Lemma nonpositive_leb x : nonpositive x -> SFleb x (S754_zero false) = true.
Proof. destruct 1 as [[]| |]; reflexivity. Qed.

Lemma SFmul_neg_nonneg ma ea v :
  SFleb (S754_zero false) v = true ->
  nonpositive (SF64mul (S754_finite true ma ea) v).
Proof.
  destruct v as [[]|[]| |[] mv ev]; try discriminate; intros _;
    try (simpl; constructor).
  unfold SF64mul, SFmul. apply signed_true_nonpositive.
  apply binary_round_aux_signed. lia.
Qed.

Lemma SFdiv_nonpositive_pos x mc ec :
  nonpositive x ->
  nonpositive (SF64div x (S754_finite false mc ec)).
Proof.
  destruct 1 as [s| |m e]; try (simpl; constructor).
  unfold SF64div, SFdiv.
  destruct (SFdiv_core_binary prec emax (Zpos m) e (Zpos mc) ec) as [[q e'] l] eqn:E.
  apply signed_true_nonpositive. apply binary_round_aux_signed.
  eapply SFdiv_core_nonneg, E.
Qed.

Lemma var95_nonpositive v :
  (0 <=? v) = true -> ((- 1.645) * v / sqrt 252 <=? 0) = true.
Proof.
  rewrite !leb_spec, div_spec, mul_spec. change (Prim2SF 0) with (S754_zero false).
  intros H. apply nonpositive_leb.
  assert (Hc : exists mc ec, Prim2SF (sqrt 252) = S754_finite false mc ec)
    by (vm_compute; eauto).
  assert (Ha : exists ma ea, Prim2SF (- 1.645) = S754_finite true ma ea)
    by (vm_compute; eauto).
  destruct Hc as (mc & ec & ->), Ha as (ma & ea & ->).
  apply SFdiv_nonpositive_pos, SFmul_neg_nonneg, H.
Qed.

Lemma mul_nan x : x * nan = nan.
Proof.
  apply Prim2SF_inj. rewrite mul_spec. change (Prim2SF nan) with S754_nan.
  destruct (Prim2SF x) as [[]|[]| |[] m e]; reflexivity.
Qed.

Lemma nan_div x : nan / x = nan.
Proof.
  apply Prim2SF_inj. rewrite div_spec. change (Prim2SF nan) with S754_nan.
  reflexivity.
Qed.

Lemma calculatePortfolioMetrics_var95 assets ws marketReturns m :
  calculatePortfolioMetrics assets ws marketReturns = Ok m ->
  var95 m = (- 1.645) * volatility m / sqrt 252.
Proof.
  unfold calculatePortfolioMetrics.
  destruct (calculateCovarianceMatrix _); simpl; [|discriminate].
  destruct (portfolioVarianceOf _ _); simpl; [|discriminate].
  destruct (calculatePortfolioReturns _ _); simpl; [|discriminate].
  destruct (calculateMaxDrawdown _ _); simpl; [|discriminate].
  intros [= <-]. reflexivity.
Qed.

(** X5.  The value at risk that [calculatePortfolioMetrics] reports is never
    positive: it is NaN when the volatility is NaN, and at most 0
    otherwise. *)
Theorem var95_never_positive
  (assets : list Asset) (ws marketReturns : list float) (m : PortfolioMetrics) :
  calculatePortfolioMetrics assets ws marketReturns = Ok m ->
  (0 <? var95 m) = false /\
  ((volatility m = nan /\ var95 m = nan) \/
   ((0 <=? volatility m) = true /\ (var95 m <=? 0) = true)).
Proof.
  intros H. rewrite (calculatePortfolioMetrics_var95 _ _ _ _ H).
  destruct (calculatePortfolioMetrics_volatility _ _ _ _ H) as (C & v & _ & _ & Hv).
  rewrite Hv. destruct (sqrt_nan_or_nonneg v) as [Hn|Hn].
  - rewrite Hn, mul_nan, nan_div. split; [reflexivity|]. left. split; reflexivity.
  - pose proof (var95_nonpositive _ Hn) as Hle.
    split; [apply leb_not_ltb, Hle|]. right. split; assumption.
Qed.

(** The theorem at a concrete input. *)
Lemma var95_witness :
  (0 <? -0.37803696289185801) = false.
Proof.
  apply (var95_never_positive [assetOf "A" "A" [100; 80; 90]] [1] []
           {| expectedReturn := -9.4500000000000011;
              volatility := 3.6481159521045932;
              sharpeRatio := -2.595860472728881;
              beta := nan;
              var95 := -0.37803696289185801;
              maxDrawdown := 0.20000000000000001;
              weights := [1] |}).
  vm_compute. reflexivity.
Defined.

(** ** When the searches throw, and what they return *)

Lemma optimizeWith_total budget assets rand :
  assets <> [] ->
  exists m, optimizeWith budget assets rand = Ok m /\
            (weights m = [] \/
             exists k, (k < budget)%nat /\ weights m = candidate assets rand k).
Proof.
  intros Hne.
  destruct (optimize_loop_total assets rand budget 0%nat (0%nat, neg_infinity, []) Hne)
    as [st Hst].
  pose proof (optimize_loop_invariant _ _ _ _ Hst) as Hinv.
  rewrite (optimizeWith_evaluate _ _ _ _ Hst).
  destruct st as [[pos bs] bw]. simpl snd.
  destruct Hinv as (_ & _ & [[_ ->]|(k & mk & Hk & Ek & -> & _)]).
  - destruct (evaluate_total assets [] Hne) as [m Hm]; [simpl; lia|].
    exists m. split; [exact Hm|]. left. apply (evaluate_weights _ _ _ Hm).
  - exists mk. split; [exact Ek|]. right. exists k. split; [exact Hk|].
    apply (evaluate_weights _ _ _ Ek).
Qed.

Lemma optimizeWith_nil budget rand :
  (0 < budget)%nat -> optimizeWith budget [] rand = TypeError.
Proof.
  intros H. unfold optimizeWith.
  rewrite (forM_error_at _ _ _ _ 0%nat); [reflexivity|lia|].
  intros [[pos bs] bw]. reflexivity.
Qed.

(** X6.  [optimizePortfolio] throws exactly on the empty asset list.  On any
    other list it returns metrics whose weight vector is one of the 10,000
    sampled candidates, or the empty vector when no candidate was kept. *)
Theorem optimizePortfolio_throws_iff (assets : list Asset) (rand : Random) :
  (optimizePortfolio assets rand = TypeError <-> assets = []) /\
  (forall m, optimizePortfolio assets rand = Ok m ->
     weights m = [] \/
     exists k, (k < 10000)%nat /\ weights m = candidate assets rand k).
Proof.
  unfold optimizePortfolio. destruct assets as [|a0 rest] eqn:E.
  - rewrite optimizeWith_nil by (vm_compute; lia).
    split; [split; reflexivity|]. intros m H. discriminate H.
  - rewrite <- E. assert (Hne : assets <> []) by (rewrite E; discriminate).
    destruct (optimizeWith_total 10000 assets rand Hne) as (m & Hm & Hw).
    rewrite Hm. split.
    + split; [discriminate|]. intros H. congruence.
    + intros m' [= <-]. exact Hw.
Qed.

Lemma optimize_loop_none_kept assets rand budget :
  assets <> [] ->
  (forall k mk, (k < budget)%nat ->
      evaluate assets (candidate assets rand k) = Ok mk ->
      (neg_infinity <? sharpeRatio mk) = false) ->
  forM 0 budget (optimizeStep assets rand) (0%nat, neg_infinity, [])
  = Ok ((budget * length assets)%nat, neg_infinity, []).
Proof.
  intros Hne Hrej.
  destruct (forM_inv_total
              (fun t st => st = ((t * length assets)%nat, neg_infinity, @nil float))
              (optimizeStep assets rand) budget 0 (0%nat, neg_infinity, []))
    as (r & Hr & ->); [reflexivity| |exact Hr].
  intros t st Ht ->. rewrite optimizeStep_evaluate.
  fold (candidate assets rand t).
  destruct (evaluate_candidate_total assets rand t Hne) as [m Hm].
  rewrite Hm. simpl bind. unfold gt. rewrite (Hrej t m ltac:(lia) Hm).
  eexists. split; [reflexivity|]. f_equal. f_equal. simpl. lia.
Qed.

Lemma evaluate_empty_weights assets m :
  evaluate assets [] = Ok m ->
  weights m = [] /\ expectedReturn m = 0 /\ volatility m = 0 /\
  sharpeRatio m = neg_infinity /\ var95 m = -0.
Proof.
  unfold evaluate. destruct (firstReturns assets); simpl bind; [|discriminate].
  unfold calculatePortfolioMetrics.
  destruct (calculateCovarianceMatrix _) as [C|]; simpl bind; [|discriminate].
  change (portfolioVarianceOf [] C) with (@Ok float 0). simpl bind.
  destruct (calculatePortfolioReturns _ _); simpl bind; [|discriminate].
  destruct (calculateMaxDrawdown _ _); simpl bind; [|discriminate].
  intros [= <-]. simpl. repeat split; reflexivity.
Qed.

(** X7.  On a non-empty asset list, when no sampled candidate has a Sharpe
    ratio above [-Infinity] (all are NaN or [-Infinity]), [optimizePortfolio]
    keeps nothing and returns the metrics of the empty weight vector:
    expected return 0, volatility 0 and Sharpe ratio [-Infinity]. *)
Theorem optimizePortfolio_nothing_kept (assets : list Asset) (rand : Random) :
  assets <> [] ->
  (forall k mk, (k < 10000)%nat ->
      evaluate assets (candidate assets rand k) = Ok mk ->
      (neg_infinity <? sharpeRatio mk) = false) ->
  exists m,
    optimizePortfolio assets rand = Ok m /\
    weights m = [] /\ expectedReturn m = 0 /\ volatility m = 0 /\
    sharpeRatio m = neg_infinity.
Proof.
  intros Hne Hrej. unfold optimizePortfolio.
  rewrite (optimizeWith_evaluate _ _ _ _ (optimize_loop_none_kept _ _ _ Hne Hrej)).
  simpl snd. destruct (evaluate_total assets [] Hne) as [m Hm]; [simpl; lia|].
  exists m. split; [exact Hm|].
  destruct (evaluate_empty_weights _ _ Hm) as (H1 & H2 & H3 & H4 & _).
  repeat split; assumption.
Qed.

Lemma single_return_candidate_sharpe k mk :
  evaluate [assetOf "A" "A" [100; 80]]
    (candidate [assetOf "A" "A" [100; 80]] (fun _ => 0.5) k) = Ok mk ->
  (neg_infinity <? sharpeRatio mk) = false.
Proof.
  unfold candidate.
  change (randomWeights (fun _ => 0.5) (k * length [assetOf "A" "A" [100; 80]])
            (length [assetOf "A" "A" [100; 80]])) with [1].
  vm_compute. intros [= <-]. reflexivity.
Qed.

(** The theorem at a concrete input. *)
Lemma optimizePortfolio_nothing_kept_witness :
  exists m,
    optimizePortfolio [assetOf "A" "A" [100; 80]] (fun _ => 0.5) = Ok m /\
    weights m = [] /\ expectedReturn m = 0 /\ volatility m = 0 /\
    sharpeRatio m = neg_infinity.
Proof.
  apply (optimizePortfolio_nothing_kept [assetOf "A" "A" [100; 80]] (fun _ => 0.5)).
  - discriminate.
  - intros k mk _. apply single_return_candidate_sharpe.
Defined.

Lemma frontierWith_nil perPoint numPoints rand :
  (0 < perPoint)%nat -> (1 <= numPoints)%Z ->
  frontierWith perPoint [] numPoints rand = TypeError.
Proof.
  intros Hp Hn. unfold frontierWith.
  rewrite forM_error; [reflexivity| |lia].
  intros i [pos pts] _. unfold frontierPointStep.
  rewrite forM_error; [reflexivity| |exact Hp].
  intros it [[pos' bv] bw] _. reflexivity.
Qed.

Lemma frontierWith_no_points perPoint assets numPoints rand :
  (numPoints <= 0)%Z -> frontierWith perPoint assets numPoints rand = Ok [].
Proof.
  intros H. unfold frontierWith. replace (Z.to_nat numPoints) with 0%nat by lia.
  reflexivity.
Qed.

(** X8.  [generateEfficientFrontier] throws exactly when the asset list is
    empty and at least one point is asked for. *)
Theorem generateEfficientFrontier_throws_iff
  (assets : list Asset) (numPoints : Z) (rand : Random) :
  generateEfficientFrontier assets numPoints rand = TypeError <->
  assets = [] /\ (1 <= numPoints)%Z.
Proof.
  unfold generateEfficientFrontier. destruct assets as [|a0 rest] eqn:E.
  - destruct (Z.le_gt_cases 1 numPoints) as [H|H].
    + rewrite frontierWith_nil by (vm_compute; lia || exact H).
      split; [intros _; split; [reflexivity|exact H]|reflexivity].
    + rewrite frontierWith_no_points by lia.
      split; [discriminate|]. intros [_ H']. lia.
  - destruct (frontierWith_spec 1000 (a0 :: rest) numPoints rand ltac:(discriminate))
      as (f & -> & _).
    split; [discriminate|]. intros [H _]. discriminate H.
Qed.

Lemma pointOf_weights_length perPoint assets rand numPoints bound p :
  pointOf perPoint assets rand numPoints bound p ->
  length (fp_weights p) = length assets.
Proof.
  intros (i & k & m & _ & _ & -> & _). unfold candidate.
  apply randomWeights_length.
Qed.

Lemma frontierWith_points perPoint assets numPoints rand frontier p :
  frontierWith perPoint assets numPoints rand = Ok frontier ->
  In p frontier ->
  assets <> [] /\
  pointOf perPoint assets rand numPoints (Z.to_nat numPoints) p.
Proof.
  intros Hf Hp. destruct assets as [|a0 rest] eqn:E.
  - exfalso. unfold frontierWith in Hf.
    destruct (Z.to_nat numPoints) as [|n] eqn:En.
    + simpl in Hf. injection Hf as <-. destruct Hp.
    + cbn [forM] in Hf. unfold frontierPointStep at 1 in Hf.
      destruct perPoint as [|pp].
      * simpl in Hf.
        assert (Hall : forall c st, exists pos,
                   forM c n (frontierPointStep 0 [] rand numPoints) st
                   = Ok (pos, snd st)).
        { clear. induction n as [|n IH]; intros c [pos pts]; simpl; eauto. }
        destruct (Hall 1%nat (0%nat, @nil EfficientFrontierPoint)) as [pos Hpos].
        rewrite Hpos in Hf. simpl in Hf. injection Hf as <-. destruct Hp.
      * cbn [forM frontierStep firstReturns at_ nth_error bind] in Hf.
        discriminate Hf.
  - rewrite <- E in *. assert (Hne : assets <> []) by (rewrite E; discriminate).
    split; [exact Hne|].
    destruct (frontierWith_spec perPoint assets numPoints rand Hne)
      as (f & Hf' & _ & Hpts & _).
    rewrite Hf' in Hf. injection Hf as <-. apply Hpts, Hp.
Qed.

(** X9.  Every point [generateEfficientFrontier] returns has a finite,
    non-negative volatility and a non-empty weight vector with one entry per
    asset. *)
Theorem frontier_points_well_formed
  (assets : list Asset) (numPoints : Z) (rand : Random) :
  match generateEfficientFrontier assets numPoints rand with
  | Ok frontier =>
      Forall (fun p => (0 <=? fp_volatility p) = true /\
                       (fp_volatility p <? infinity) = true /\
                       length (fp_weights p) = length assets /\
                       (0 < length (fp_weights p))%nat) frontier
  | TypeError => True
  end.
Proof.
  destruct (generateEfficientFrontier assets numPoints rand) as [frontier|] eqn:Hf;
    [|exact I].
  apply Forall_forall. intros p Hp.
  destruct (frontierWith_points _ _ _ _ _ _ Hf Hp) as [Hne Hpt].
  pose proof (pointOf_finite _ _ _ _ _ _ Hpt) as Hfin.
  apply andb_true_iff in Hfin. destruct Hfin as [H1 H2].
  pose proof (pointOf_weights_length _ _ _ _ _ _ Hpt) as Hl.
  repeat split; try assumption.
  rewrite Hl. destruct assets; [congruence|simpl; lia].
Qed.

(** ** The draws a search consumes *)

Lemma randomWeights_ext rand rand' pos n :
  (forall k, (pos <= k < pos + n)%nat -> rand k = rand' k) ->
  randomWeights rand pos n = randomWeights rand' pos n.
Proof.
  intros H. unfold randomWeights. f_equal.
  apply map_ext_in. intros k Hk. apply in_seq in Hk. apply H, Hk.
Qed.

Lemma optimize_loop_ext assets rand rand' budget : forall start pos bs bw,
  (forall k, (pos <= k < pos + budget * length assets)%nat -> rand k = rand' k) ->
  forM start budget (optimizeStep assets rand) (pos, bs, bw)
  = forM start budget (optimizeStep assets rand') (pos, bs, bw).
Proof.
  induction budget as [|n IH]; intros start pos bs bw H; [reflexivity|].
  cbn [forM]. rewrite !optimizeStep_evaluate.
  rewrite <- (randomWeights_ext rand rand' pos (length assets))
    by (intros k Hk; apply H; simpl; lia).
  destruct (evaluate assets (randomWeights rand pos (length assets))) as [m|];
    [|reflexivity].
  simpl bind. destruct (gt (sharpeRatio m) bs); simpl bind;
    apply IH; intros k Hk; apply H; simpl; lia.
Qed.

Lemma frontier_inner_ext assets rand rand' target count : forall start pos bv bw,
  (forall k, (pos <= k < pos + count * length assets)%nat -> rand k = rand' k) ->
  forM start count (frontierStep assets rand target) (pos, bv, bw)
  = forM start count (frontierStep assets rand' target) (pos, bv, bw).
Proof.
  induction count as [|n IH]; intros start pos bv bw H; [reflexivity|].
  cbn [forM]. rewrite !frontierStep_evaluate.
  rewrite <- (randomWeights_ext rand rand' pos (length assets))
    by (intros k Hk; apply H; simpl; lia).
  destruct (evaluate assets (randomWeights rand pos (length assets))) as [m|];
    [|reflexivity].
  simpl bind. destruct (_ && _); simpl bind;
    apply IH; intros k Hk; apply H; simpl; lia.
Qed.

Lemma frontier_inner_pos assets rand target count : forall start pos bv bw st,
  forM start count (frontierStep assets rand target) (pos, bv, bw) = Ok st ->
  fst (fst st) = (pos + count * length assets)%nat.
Proof.
  induction count as [|n IH]; intros start pos bv bw st.
  - simpl. intros [= <-]. simpl. lia.
  - cbn [forM]. rewrite frontierStep_evaluate.
    destruct (evaluate _ _) as [m|]; simpl bind; [|discriminate].
    destruct (_ && _); simpl bind; intros H; apply IH in H; rewrite H; simpl; lia.
Qed.

Lemma frontier_outer_ext perPoint assets rand rand' numPoints count :
  forall start pos pts,
  (forall k, (pos <= k < pos + count * (perPoint * length assets))%nat ->
             rand k = rand' k) ->
  forM start count (frontierPointStep perPoint assets rand numPoints) (pos, pts)
  = forM start count (frontierPointStep perPoint assets rand' numPoints) (pos, pts).
Proof.
  induction count as [|n IH]; intros start pos pts H; [reflexivity|].
  cbn [forM]. unfold frontierPointStep at 1 3.
  rewrite <- (frontier_inner_ext assets rand rand' (targetReturnOf numPoints start)
                perPoint 0 pos infinity []) by (intros k Hk; apply H; simpl; lia).
  destruct (forM 0 perPoint _ _) as [[[pos' bv] bw]|] eqn:E; simpl bind;
    [|reflexivity].
  apply frontier_inner_pos in E. simpl in E. subst pos'.
  destruct (0 <? length bw)%nat.
  - destruct (firstReturns assets); simpl bind; [|reflexivity].
    destruct (calculatePortfolioMetrics _ _ _); simpl bind; [|reflexivity].
    apply IH. intros k Hk. apply H. simpl. lia.
  - simpl bind. apply IH. intros k Hk. apply H. simpl. lia.
Qed.

(** X10.  The searches read the random stream from its start and no further
    than they sample: [optimizePortfolio] depends on the first
    [10000 * n] draws only and [generateEfficientFrontier] on the first
    [numPoints * 1000 * n], [n] being the number of assets.  Two streams
    that agree there give the same result. *)
Theorem searches_depend_on_consumed_draws
  (assets : list Asset) (rand rand' : Random) :
  ((forall k, (k < 10000 * length assets)%nat -> rand k = rand' k) ->
   optimizePortfolio assets rand = optimizePortfolio assets rand') /\
  (forall numPoints,
     (forall k, (k < Z.to_nat numPoints * (1000 * length assets))%nat ->
                rand k = rand' k) ->
     generateEfficientFrontier assets numPoints rand
     = generateEfficientFrontier assets numPoints rand').
Proof.
  split.
  - intros H. unfold optimizePortfolio, optimizeWith.
    rewrite (optimize_loop_ext assets rand rand' 10000 0 0 neg_infinity [])
      by (intros k Hk; apply H; lia).
    reflexivity.
  - intros numPoints H. unfold generateEfficientFrontier, frontierWith.
    rewrite (frontier_outer_ext 1000 assets rand rand' numPoints
               (Z.to_nat numPoints) 0 0 []) by (intros k Hk; apply H; lia).
    reflexivity.
Qed.

(** The theorem at a concrete input. *)
Lemma searches_draws_witness :
  optimizePortfolio [assetOf "A" "A" [100; 80]] sampleRandom
  = optimizePortfolio [assetOf "A" "A" [100; 80]]
      (fun k => if (k <? 10000)%nat then sampleRandom k else 0).
Proof.
  apply (searches_depend_on_consumed_draws [assetOf "A" "A" [100; 80]] sampleRandom
           (fun k => if (k <? 10000)%nat then sampleRandom k else 0)).
  intros k Hk. destruct (Nat.ltb_spec k 10000) as [_|Hge]; [reflexivity|].
  simpl length in Hk. lia.
Defined.

(** ** A flat price history *)

Lemma SFsub_self s m e :
  SF64sub (S754_finite s m e) (S754_finite s m e) = S754_zero false.
Proof.
  unfold SF64sub, SFsub. cbv zeta. rewrite Z.min_id, Z.sub_diag. reflexivity.
Qed.

Lemma flat_return p :
  (0 <? p) = true -> (p <? infinity) = true -> (p - p) / p = 0.
Proof.
  rewrite !ltb_spec. change (Prim2SF 0) with (S754_zero false).
  change (Prim2SF infinity) with (S754_infinity false). intros H1 H2.
  apply Prim2SF_inj. rewrite div_spec, sub_spec.
  destruct (Prim2SF p) as [[]|[]| |[] m e]; try discriminate.
  rewrite SFsub_self. reflexivity.
Qed.

(** X11.  A flat history of [n] equal, positive, finite prices has [n - 1]
    returns, all exactly 0. *)
Theorem calculateReturns_flat (p : float) (n : nat) :
  (0 <? p) = true -> (p <? infinity) = true ->
  calculateReturns (repeat p n) = repeat 0 (n - 1).
Proof.
  intros H1 H2. unfold calculateReturns. rewrite returnsOver_map, repeat_length.
  assert (Hnth : forall i, (i < n)%nat -> nth i (repeat p n) nan = p).
  { intros i Hi. apply nth_repeat_lt. exact Hi. }
  transitivity (map (fun _ : nat => 0) (seq 1 (n - 1))).
  - apply map_ext_in. intros i Hi. apply in_seq in Hi.
    rewrite !Hnth by lia. apply flat_return; assumption.
  - generalize (n - 1)%nat as c. generalize 1%nat as s.
    intros s c. revert s. induction c as [|c IH]; intros s; simpl;
      [reflexivity|]. rewrite IH. reflexivity.
Qed.

(** The theorem at a concrete input. *)
Lemma calculateReturns_flat_witness :
  calculateReturns (repeat 50 3) = repeat 0 2.
Proof. apply (calculateReturns_flat 50 3); reflexivity. Defined.

(** ** A portfolio whose value never falls *)

Lemma SFsub_equal mx ex my ey :
  valid_binary (S754_finite false mx ex) = true ->
  valid_binary (S754_finite false my ey) = true ->
  SFltb (S754_finite false mx ex) (S754_finite false my ey) = false ->
  SFltb (S754_finite false my ey) (S754_finite false mx ex) = false ->
  SF64sub (S754_finite false mx ex) (S754_finite false my ey) = S754_zero false.
Proof.
  intros Hx Hy H1 H2. unfold SF64sub, SFsub. cbv zeta. unfold cond_Zopp.
  rewrite !shl_align_fst by lia.
  pose proof (aligned_compare mx ex my ey Hx Hy) as HC.
  unfold SFltb in H1, H2. simpl SFcompare in H1, H2.
  change (Pos.compare_cont Eq mx my) with (Pos.compare mx my) in H1.
  change (Pos.compare_cont Eq my mx) with (Pos.compare my mx) in H2.
  rewrite (Z.compare_antisym ex ey), (Pos.compare_antisym mx my) in H2.
  assert (HE : (Z.pos mx * 2 ^ (ex - Z.min ex ey)
                ?= Z.pos my * 2 ^ (ey - Z.min ex ey))%Z = Eq).
  { rewrite HC. destruct (ex ?= ey)%Z; simpl in *; try discriminate.
    destruct (mx ?= my)%positive; simpl in *; try discriminate. reflexivity. }
  apply Z.compare_eq in HE. rewrite HE, Z.sub_diag. reflexivity.
Qed.

Lemma sub_equal_zero a b :
  finite_nonneg a = true -> finite_nonneg b = true ->
  (a <? b) = false -> (b <? a) = false ->
  exists s, Prim2SF (a - b) = S754_zero s.
Proof.
  intros Ha Hb.
  pose proof (Prim2SF_valid a) as Va. pose proof (Prim2SF_valid b) as Vb.
  apply finite_nonneg_spec in Ha, Hb. rewrite !ltb_spec, sub_spec.
  destruct Ha as [[sa Ea]|(ma & ea & Ea)], Hb as [[sb Eb]|(mb & eb & Eb)];
    rewrite Ea, Eb in *; intros H1 H2.
  - destruct sa, sb; simpl; eauto.
  - discriminate H1.
  - discriminate H2.
  - exists false. apply SFsub_equal; assumption.
Qed.

Lemma drawdown_not_positive peak v :
  finite_nonneg peak = true -> finite_nonneg v = true ->
  (v <? peak) = false -> (peak <? v) = false ->
  (0 <? (peak - v) / peak) = false.
Proof.
  intros Hp Hv H1 H2.
  destruct (sub_equal_zero peak v Hp Hv H2 H1) as [s Hs].
  apply finite_nonneg_spec in Hp.
  rewrite ltb_spec, div_spec, Hs. change (Prim2SF 0) with (S754_zero false).
  destruct Hp as [[sp ->]|(mp & ep & ->)]; reflexivity.
Qed.

Lemma leb_refl_finite x : finite_nonneg x = true -> (x <=? x) = true.
Proof. intros H. apply ltb_false_leb; [exact H|exact H|apply ltb_irrefl]. Qed.

Lemma drawdownStep_flat values i peak :
  finite_nonneg peak = true ->
  finite_nonneg (idx values i) = true ->
  (peak <=? idx values i) = true ->
  exists peak',
    drawdownStep values i (0, peak) = (0, peak') /\
    finite_nonneg peak' = true /\
    (peak' <=? idx values i) = true.
Proof.
  intros Hp Hv Hle. unfold drawdownStep, gt.
  destruct (peak <? idx values i) eqn:E.
  - exists (idx values i).
    rewrite (drawdown_not_positive (idx values i) (idx values i) Hv Hv)
      by apply ltb_irrefl.
    split; [reflexivity|]. split; [exact Hv|apply leb_refl_finite, Hv].
  - exists peak.
    rewrite (drawdown_not_positive peak (idx values i) Hp Hv)
      by (try exact E; apply leb_not_ltb, Hle).
    split; [reflexivity|]. split; assumption.
Qed.

Lemma drawdownOf_nondecreasing values :
  (forall i, (i < length values)%nat -> finite_nonneg (idx values i) = true) ->
  (forall i, (i + 1 < length values)%nat ->
             (idx values i <=? idx values (i + 1)) = true) ->
  drawdownOf values = 0.
Proof.
  intros Hfin Hmono. unfold drawdownOf.
  destruct values as [|v0 rest] eqn:E; [reflexivity|]. rewrite <- E in *.
  assert (Hlen : length values = S (length rest)) by (rewrite E; reflexivity).
  pose proof (for_inv
    (fun i st => (i <= length values)%nat /\ fst st = 0 /\
                 finite_nonneg (snd st) = true /\
                 (snd st <=? idx values (i - 1)) = true)
    (drawdownStep values) (length values - 1) 1 (0, idx values 0)) as H.
  destruct H as (_ & H & _).
  - split; [lia|]. split; [reflexivity|]. simpl snd.
    split; [apply Hfin; lia|]. apply leb_refl_finite, Hfin. lia.
  - intros i [md peak] Hi (Hb & Hmd & Hp & Hle). simpl in Hmd, Hp, Hle. subst md.
    assert (Hv : finite_nonneg (idx values i) = true) by (apply Hfin; lia).
    assert (Hle' : (peak <=? idx values i) = true).
    { eapply leb_trans; [exact Hle|].
      replace i with (i - 1 + 1)%nat at 2 by lia. apply Hmono. lia. }
    destruct (drawdownStep_flat values i peak Hp Hv Hle') as (peak' & -> & Hp' & Hl').
    simpl. replace (i - 0)%nat with i by lia.
    split; [lia|]. split; [reflexivity|]. split; assumption.
  - exact H.
Qed.

(** X12.  When the weighted value series is finite, non-negative and never
    decreases, the maximum drawdown is exactly 0. *)
Theorem calculateMaxDrawdown_nondecreasing
  (assets : list Asset) (ws values : list float) :
  portfolioValueSeries assets ws = Ok values ->
  (forall i, (i < length values)%nat ->
             (0 <=? idx values i) = true /\ (idx values i <? infinity) = true) ->
  (forall i, (i + 1 < length values)%nat ->
             (idx values i <=? idx values (i + 1)) = true) ->
  calculateMaxDrawdown assets ws = Ok 0.
Proof.
  intros Hv Hfin Hmono. unfold calculateMaxDrawdown. rewrite Hv. simpl bind.
  rewrite drawdownOf_nondecreasing; [reflexivity| |exact Hmono].
  intros i Hi. destruct (Hfin i Hi) as [H1 H2].
  unfold finite_nonneg. rewrite H1, H2. reflexivity.
Qed.

(** The theorem at a concrete input. *)
Lemma calculateMaxDrawdown_nondecreasing_witness :
  calculateMaxDrawdown
    [assetOf "A" "A" [100; 110; 121]; assetOf "B" "B" [50; 50; 50]] [0.5; 0.5]
  = Ok 0.
Proof.
  apply (calculateMaxDrawdown_nondecreasing
           [assetOf "A" "A" [100; 110; 121]; assetOf "B" "B" [50; 50; 50]]
           [0.5; 0.5] [75; 80; 85.5]).
  - vm_compute. reflexivity.
  - intros i Hi. simpl in Hi.
    destruct i as [|[|[|i]]]; [split; reflexivity..|lia].
  - intros i Hi. simpl in Hi.
    destruct i as [|[|i]]; [reflexivity..|lia].
Defined.

(** ** The asset picker *)

Lemma returnsInline_map prices :
  returnsInline prices
  = map (fun i => (idx prices (S i) - idx prices i) / idx prices i)
      (seq 0 (length prices - 1)).
Proof.
  unfold returnsInline. destruct prices as [|p0 rest]; [reflexivity|].
  cbn [tl length]. replace (S (length rest) - 1)%nat with (length rest) by lia.
  assert (G : forall k (l : list float) s,
    (forall i, (i < length l)%nat -> nth i l nan = idx (p0 :: rest) (S (s + i))) ->
    k = length l ->
    map (fun '(i, price) => (price - idx (p0 :: rest) i) / idx (p0 :: rest) i)
      (combine (seq s k) l)
    = map (fun i => (idx (p0 :: rest) (S i) - idx (p0 :: rest) i) / idx (p0 :: rest) i)
        (seq s k)).
  { induction k as [|k IH]; intros l s Hn Hk; [reflexivity|].
    destruct l as [|x l]; [discriminate|]. simpl.
    f_equal.
    - specialize (Hn 0%nat ltac:(simpl; lia)). simpl in Hn.
      rewrite Nat.add_0_r in Hn. unfold idx at 2. rewrite <- Hn. reflexivity.
    - apply IH; [|simpl in Hk; lia].
      intros i Hi. specialize (Hn (S i) ltac:(simpl; lia)). simpl in Hn.
      replace (S s + i)%nat with (s + S i)%nat by lia. exact Hn. }
  apply G; [|reflexivity]. intros i Hi. reflexivity.
Qed.

Lemma returnsInline_calculateReturns prices :
  returnsInline prices = calculateReturns prices.
Proof.
  rewrite returnsInline_map. unfold calculateReturns. rewrite returnsOver_map.
  rewrite <- seq_shift, map_map. apply map_ext. intros i.
  unfold idx. replace (S i - 1)%nat with i by lia. reflexivity.
Qed.

(** X13.  The returns the asset picker computes inline for a new asset
    ([prices.slice(1).map(...)]) are the returns [calculateReturns] computes
    from the same prices. *)
Theorem inline_returns_agree (prices : list float) :
  returnsInline prices = calculateReturns prices /\
  length (returnsInline prices) = (length prices - 1)%nat.
Proof.
  split; [apply returnsInline_calculateReturns|].
  rewrite returnsInline_calculateReturns. apply returnsOver_length.
Qed.

Lemma isSelected_In assets sym :
  isSelected assets sym = true <-> In sym (map symbol assets).
Proof.
  unfold isSelected. rewrite existsb_exists, in_map_iff. split.
  - intros (a & Ha & He). apply String.eqb_eq in He. eauto.
  - intros (a & He & Ha). exists a. split; [exact Ha|]. apply String.eqb_eq, He.
Qed.

Lemma isSelected_false assets sym :
  isSelected assets sym = false <-> ~ In sym (map symbol assets).
Proof.
  rewrite <- isSelected_In. destruct (isSelected assets sym); split; congruence.
Qed.

Lemma createDefaultAssets_cons rand pos :
  exists template rest,
    createDefaultAssets rand pos = template :: rest /\
    length (prices template) = 252%nat.
Proof.
  unfold createDefaultAssets, assetData. cbn [createAssets].
  eexists. eexists. split; [reflexivity|]. cbn [prices].
  rewrite generateMockPriceData_length. reflexivity.
Qed.

Lemma addAssetFromUniverse_cases assets rand pos info :
  (isSelected assets (ai_symbol info) = true /\
   addAssetFromUniverse assets rand pos info = Ok None) \/
  (isSelected assets (ai_symbol info) = false /\
   exists a,
     addAssetFromUniverse assets rand pos info = Ok (Some (assets ++ [a])) /\
     symbol a = ai_symbol info /\ name a = ai_name info /\
     length (prices a) = 252%nat /\
     returns a = calculateReturns (prices a) /\ weight a = None).
Proof.
  unfold addAssetFromUniverse.
  destruct (isSelected assets (ai_symbol info)) eqn:E; [left; split; reflexivity|].
  right. split; [reflexivity|].
  destruct (createDefaultAssets_cons rand pos) as (t & rest & -> & Ht).
  cbn [at_ nth_error bind]. eexists. split; [reflexivity|].
  cbn [symbol name prices returns weight].
  split; [reflexivity|]. split; [reflexivity|].
  split; [|split; [apply returnsInline_calculateReturns|reflexivity]].
  rewrite length_map, length_combine, length_seq, Ht. reflexivity.
Qed.

(** X14.  [addAssetFromUniverse] never throws.  It changes nothing when the
    symbol is already selected; otherwise it appends one asset with that
    symbol and name, 252 prices and the 251 returns of those prices.  A
    selection with distinct symbols keeps distinct symbols. *)
Theorem addAssetFromUniverse_behaviour
  (assets : list Asset) (rand : Random) (pos : nat) (info : AssetInfo) :
  addAssetFromUniverse assets rand pos info <> TypeError /\
  (In (ai_symbol info) (map symbol assets) ->
   addAssetFromUniverse assets rand pos info = Ok None) /\
  (~ In (ai_symbol info) (map symbol assets) ->
   exists a,
     addAssetFromUniverse assets rand pos info = Ok (Some (assets ++ [a])) /\
     symbol a = ai_symbol info /\ name a = ai_name info /\
     length (prices a) = 252%nat /\ length (returns a) = 251%nat /\
     returns a = calculateReturns (prices a)) /\
  (forall assets',
     NoDup (map symbol assets) ->
     addAssetFromUniverse assets rand pos info = Ok (Some assets') ->
     NoDup (map symbol assets')).
Proof.
  destruct (addAssetFromUniverse_cases assets rand pos info)
    as [[Hs He]|[Hs (a & He & Hsym & Hname & Hp & Hr & Hw)]].
  - rewrite He. split; [discriminate|]. split; [reflexivity|].
    split; [|intros assets' _ H; discriminate H].
    intros Hn. apply isSelected_In in Hs. contradiction.
  - rewrite He. split; [discriminate|]. split.
    + intros Hi. apply isSelected_In in Hi. congruence.
    + split.
      * intros _. exists a. repeat split; try assumption.
        rewrite Hr. unfold calculateReturns. rewrite returnsOver_length, Hp.
        reflexivity.
      * intros assets' Hnd [= <-]. rewrite map_app. simpl.
        apply NoDup_app; [exact Hnd|repeat constructor; intros []|].
        intros x Hx [<-|[]]. apply isSelected_false in Hs. rewrite Hsym in Hx.
        contradiction.
Qed.

(** The theorem at a concrete input. *)
Lemma addAssetFromUniverse_witness :
  exists a,
    addAssetFromUniverse [] sampleRandom 0
      {| ai_symbol := "GLD"; ai_name := "Gold ETF"; ai_category := "commodity" |}
    = Ok (Some ([] ++ [a])) /\
    symbol a = "GLD"%string /\ name a = "Gold ETF"%string /\
    length (prices a) = 252%nat /\ length (returns a) = 251%nat /\
    returns a = calculateReturns (prices a).
Proof.
  apply (addAssetFromUniverse_behaviour [] sampleRandom 0
           {| ai_symbol := "GLD"; ai_name := "Gold ETF"; ai_category := "commodity" |}).
  simpl. intros [].
Defined.

Lemma removeAsset_absent assets sym :
  ~ In sym (map symbol assets) -> removeAsset assets sym = assets.
Proof.
  intros H. unfold removeAsset. induction assets as [|a l IH]; [reflexivity|].
  simpl in *. destruct (String.eqb_spec (symbol a) sym) as [E|E].
  - exfalso. apply H. left. exact E.
  - simpl. rewrite IH; [reflexivity|]. intros Hin. apply H. right. exact Hin.
Qed.

(** X15.  After [removeAsset] no selected asset has the removed symbol and
    every asset with another symbol is still selected; removing a symbol that
    is not selected changes nothing, and removing the symbol
    [addAssetFromUniverse] has just added gives back the selection. *)
Theorem removeAsset_behaviour (assets : list Asset) (sym : string) :
  ~ In sym (map symbol (removeAsset assets sym)) /\
  (forall a, In a assets -> symbol a <> sym -> In a (removeAsset assets sym)) /\
  (~ In sym (map symbol assets) -> removeAsset assets sym = assets) /\
  (forall rand pos info assets',
     addAssetFromUniverse assets rand pos info = Ok (Some assets') ->
     removeAsset assets' (ai_symbol info) = assets).
Proof.
  split; [|split; [|split; [apply removeAsset_absent|]]].
  - unfold removeAsset. rewrite in_map_iff. intros (a & Hs & Ha).
    apply filter_In in Ha. destruct Ha as [_ Ha].
    rewrite <- Hs, String.eqb_refl in Ha. discriminate Ha.
  - intros a Ha Hne. unfold removeAsset. apply filter_In. split; [exact Ha|].
    destruct (String.eqb_spec (symbol a) sym); [contradiction|reflexivity].
  - intros rand pos info assets' H.
    destruct (addAssetFromUniverse_cases assets rand pos info)
      as [[Hs He]|[Hs (a & He & Hsym & _)]]; rewrite He in H; [discriminate|].
    injection H as <-. unfold removeAsset. rewrite filter_app. simpl.
    rewrite Hsym, String.eqb_refl. simpl. rewrite app_nil_r.
    apply removeAsset_absent. apply isSelected_false, Hs.
Qed.

(** The theorem at a concrete input. *)
Lemma removeAsset_witness :
  removeAsset [assetOf "GLD" "Gold ETF" [180; 181]] "SLV"
  = [assetOf "GLD" "Gold ETF" [180; 181]].
Proof.
  apply (removeAsset_behaviour [assetOf "GLD" "Gold ETF" [180; 181]] "SLV").
  simpl. intros [H|[]]. discriminate H.
Defined.

(** X16.  No asset offered by the picker is already selected; every offered
    asset belongs to the universe and, when a category is set, to that
    category. *)
Theorem availableAssets_sound
  (assets : list Asset) (selectedCategory : option string) (info : AssetInfo) :
  In info (availableAssets assets selectedCategory) ->
  ~ In (ai_symbol info) (map symbol assets) /\
  In info ASSET_UNIVERSE /\
  (forall category, selectedCategory = Some category -> category <> ""%string ->
                    ai_category info = category).
Proof.
  unfold availableAssets. intros H. apply filter_In in H. destruct H as [Hin Hsel].
  split; [apply isSelected_false; destruct (isSelected _ _); [discriminate|reflexivity]|].
  destruct selectedCategory as [c|].
  - destruct (String.eqb_spec c "") as [->|Hne].
    + split; [exact Hin|]. intros category [= <-] Hc. congruence.
    + apply filter_In in Hin. destruct Hin as [Hu Hc].
      split; [exact Hu|]. intros category [= <-] _. apply String.eqb_eq, Hc.
  - split; [exact Hin|]. intros category H. discriminate H.
Qed.

(** The theorem at a concrete input. *)
Lemma availableAssets_witness :
  ~ In "SLV"%string (map symbol [assetOf "GLD" "Gold ETF" [180; 181]]) /\
  In {| ai_symbol := "SLV"; ai_name := "Silver ETF"; ai_category := "commodity" |}
    ASSET_UNIVERSE.
Proof.
  destruct (availableAssets_sound [assetOf "GLD" "Gold ETF" [180; 181]]
              (Some "commodity"%string)
              {| ai_symbol := "SLV"; ai_name := "Silver ETF";
                 ai_category := "commodity" |}) as (H1 & H2 & _).
  - vm_compute. left. reflexivity.
  - split; assumption.
Defined.

(** ** The metrics panel *)

Lemma leb_nan_l y : (nan <=? y) = false.
Proof. rewrite leb_spec. reflexivity. Qed.

(** X17.  The risk badge never gets worse when the tolerance is raised: a
    volatility that is not "High" at one tolerance is "Appropriate" at the
    next one up.  A NaN volatility is "High" at every tolerance. *)
Theorem getRiskStatus_monotone (vol : float) :
  (fst (getRiskStatus vol low) <> destructive ->
   getRiskStatus vol medium = (success, "Appropriate"%string)) /\
  (fst (getRiskStatus vol medium) <> destructive ->
   getRiskStatus vol high = (success, "Appropriate"%string)) /\
  (forall tolerance,
     getRiskStatus nan tolerance = (destructive, "High"%string)).
Proof.
  split; [|split].
  - unfold getRiskStatus. intros H.
    assert (Hv : (vol <=? 0.12 * 1.2) = true).
    { destruct (vol <=? 0.12) eqn:E1.
      - eapply leb_trans; [exact E1|reflexivity].
      - destruct (vol <=? 0.12 * 1.2); [reflexivity|]. exfalso. apply H. reflexivity. }
    rewrite (leb_trans vol (0.12 * 1.2) 0.18 Hv) by reflexivity. reflexivity.
  - unfold getRiskStatus. intros H.
    assert (Hv : (vol <=? 0.18 * 1.2) = true).
    { destruct (vol <=? 0.18) eqn:E1.
      - eapply leb_trans; [exact E1|reflexivity].
      - destruct (vol <=? 0.18 * 1.2); [reflexivity|]. exfalso. apply H. reflexivity. }
    rewrite (leb_trans vol (0.18 * 1.2) 0.25 Hv) by reflexivity. reflexivity.
  - intros []; reflexivity.
Qed.

(** The theorem at a concrete input. *)
Lemma getRiskStatus_witness :
  getRiskStatus 0.14 medium = (success, "Appropriate"%string).
Proof.
  apply (getRiskStatus_monotone 0.14). vm_compute. discriminate.
Defined.

Lemma ltb_trans x y z : (x <? y) = true -> (y <? z) = true -> (x <? z) = true.
Proof. intros H1 H2. eapply ltb_leb_trans; [exact H1|apply ltb_leb, H2]. Qed.

(** X18.  The risk-return badge is the "default" one exactly when the rating
    is "Excellent" or "Good"; a NaN Sharpe ratio is rated "Poor" and a NaN
    return is shown as a falling, "destructive" return. *)
Theorem sharpe_badge_consistent (sharpeRatio : float) :
  (sharpeBadge sharpeRatio = "default"%string <->
   sharpeRating sharpeRatio = "Excellent"%string \/
   sharpeRating sharpeRatio = "Good"%string) /\
  sharpeRating nan = "Poor"%string /\
  getReturnStatus nan = (destructive, TrendingDown).
Proof.
  split; [|split; reflexivity].
  unfold sharpeBadge, sharpeRating, gt.
  destruct (1.5 <? sharpeRatio) eqn:E15.
  - rewrite (ltb_trans 1 1.5 sharpeRatio) by (reflexivity || exact E15).
    split; [intros _; left; reflexivity|reflexivity].
  - destruct (1 <? sharpeRatio) eqn:E1.
    + split; [intros _; right; reflexivity|reflexivity].
    + split; [discriminate|].
      destruct (0.5 <? sharpeRatio); intros [H|H]; discriminate H.
Qed.

(** ** The allocation chart *)








(** ** The covariance matrix on any input *)

Lemma covEntry_comm returns m i j : covEntry returns m i j = covEntry returns m j i.
Proof.
  unfold covEntry. f_equal. f_equal.
  apply for_ext. intros k acc _. rewrite mul_comm. reflexivity.
Qed.

(** X20.  [calculateCovarianceMatrix] throws exactly on the empty list of
    series.  On any other input, even with series of different lengths, it
    returns a square matrix with one row and one column per series, and the
    matrix is symmetric. *)
Theorem calculateCovarianceMatrix_square_symmetric (returns : list (list float)) :
  (calculateCovarianceMatrix returns = TypeError <-> returns = []) /\
  (forall covMatrix,
     calculateCovarianceMatrix returns = Ok covMatrix ->
     length covMatrix = length returns /\
     (forall i, (i < length returns)%nat ->
                length (nth i covMatrix []) = length returns) /\
     (forall i j, (i < length returns)%nat -> (j < length returns)%nat ->
                  entry covMatrix i j = entry covMatrix j i)).
Proof.
  destruct returns as [|r0 rest] eqn:E.
  - split; [split; reflexivity|]. intros M H. discriminate H.
  - rewrite <- E.
    rewrite (calculateCovarianceMatrix_ok returns r0) by (rewrite E; reflexivity).
    split; [split; [discriminate|intros H; rewrite E in H; discriminate H]|].
    intros M [= <-]. set (n := length returns).
    split; [rewrite length_map, length_seq; reflexivity|]. split.
    + intros i Hi.
      rewrite (nth_indep _ [] ((fun i => map (covEntry returns (length r0) i) (seq 0 n)) O))
        by (rewrite length_map, length_seq; exact Hi).
      rewrite (map_nth (fun i => map (covEntry returns (length r0) i) (seq 0 n))).
      rewrite length_map, length_seq. reflexivity.
    + intros i j Hi Hj. rewrite !entry_map2 by assumption. apply covEntry_comm.
Qed.

(** ** Drawdown on short histories *)

(** X21.  [calculateMaxDrawdown] throws exactly on the empty asset list, and
    it is 0 when the first asset has fewer than two prices. *)
Theorem calculateMaxDrawdown_edges (assets : list Asset) (ws : list float) :
  (calculateMaxDrawdown assets ws = TypeError <-> assets = []) /\
  ((length (pricesOf assets 0) <= 1)%nat -> assets <> [] ->
   calculateMaxDrawdown assets ws = Ok 0).
Proof.
  destruct assets as [|a0 rest] eqn:E.
  - split; [split; reflexivity|]. intros _ H. congruence.
  - rewrite <- E. assert (H0 : nth_error assets 0 = Some a0) by (rewrite E; reflexivity).
    unfold calculateMaxDrawdown.
    rewrite (portfolioValueSeries_values assets ws a0 H0). simpl bind.
    split; [split; [discriminate|intros H; rewrite E in H; discriminate H]|].
    intros Hl _. unfold pricesOf in Hl. rewrite H0 in Hl.
    unfold drawdownOf. rewrite length_map, length_seq.
    replace (length (prices a0) - 1)%nat with 0%nat by lia. reflexivity.
Qed.

(** The theorem at a concrete input. *)
Lemma calculateMaxDrawdown_edges_witness :
  calculateMaxDrawdown [assetOf "A" "A" [100]] [1] = Ok 0.
Proof.
  apply (calculateMaxDrawdown_edges [assetOf "A" "A" [100]] [1]).
  - simpl. lia.
  - discriminate.
Defined.

(** ** The candidate kept for a target *)

Lemma lowestSoFar_step assets rand target base t st st' :
  lowestSoFar assets rand target base t st ->
  frontierStep assets rand target t st = Ok st' ->
  lowestSoFar assets rand target base (S t) st'.
Proof.
  destruct st as [[pos bv] bw]. intros (Hpos & Hmin & Hkept).
  rewrite frontierStep_evaluate. subst pos. fold (candidate assets rand (base + t)).
  destruct (evaluate assets (candidate assets rand (base + t))) as [mt|] eqn:Et;
    simpl; [|discriminate].
  destruct (withinTolerance mt target) eqn:Ew; simpl.
  - destruct (volatility mt <? bv) eqn:Ev; intros [= <-].
    + split; [lia|]. split.
      * intros j mj Hj Ej Hwj. destruct (Nat.eq_dec j t) as [->|Hne].
        -- rewrite Et in Ej. injection Ej as <-. apply ltb_irrefl.
        -- destruct (volatility mj <? volatility mt) eqn:E; [|reflexivity].
           rewrite <- (Hmin j mj ltac:(lia) Ej Hwj). symmetry.
           eapply ltb_trans; eassumption.
      * right. exists t, mt. split; [lia|]. split; [exact Et|].
        split; [reflexivity|]. split; [reflexivity|]. split; [exact Ew|].
        intros j mj Hj Ej Hwj.
        destruct (volatility mj <=? volatility mt) eqn:E; [|reflexivity].
        rewrite <- (Hmin j mj Hj Ej Hwj). symmetry.
        eapply leb_ltb_trans; eassumption.
    + split; [lia|]. split.
      * intros j mj Hj Ej Hwj. destruct (Nat.eq_dec j t) as [->|Hne].
        -- rewrite Et in Ej. injection Ej as <-. exact Ev.
        -- apply (Hmin j mj); [lia|exact Ej|exact Hwj].
      * destruct Hkept as [H|(k & mk & Hk & H)]; [left; exact H|].
        right. exists k, mk. split; [lia|exact H].
  - intros [= <-]. split; [lia|]. split.
    + intros j mj Hj Ej Hwj. destruct (Nat.eq_dec j t) as [->|Hne].
      * rewrite Et in Ej. injection Ej as <-. congruence.
      * apply (Hmin j mj); [lia|exact Ej|exact Hwj].
    + destruct Hkept as [H|(k & mk & Hk & H)]; [left; exact H|].
      right. exists k, mk. split; [lia|exact H].
Qed.

(** X22.  For one target the inner search of the frontier, on a non-empty
    asset list, ends either with nothing kept, when no sampled candidate
    within tolerance has a volatility below [+Infinity], or with the first
    candidate within tolerance that no other candidate within tolerance
    undercuts in volatility. *)
Theorem frontier_search_keeps_lowest_volatility
  (perPoint : nat) (assets : list Asset) (rand : Random) (target : float)
  (base : nat) :
  assets <> [] ->
  exists pos bestVolatility bestWeights,
    forM 0 perPoint (frontierStep assets rand target)
      ((base * length assets)%nat, infinity, []) = Ok (pos, bestVolatility, bestWeights) /\
    (forall j mj, (j < perPoint)%nat ->
       evaluate assets (candidate assets rand (base + j)) = Ok mj ->
       withinTolerance mj target = true ->
       (volatility mj <? bestVolatility) = false) /\
    ((bestVolatility = infinity /\ bestWeights = []) \/
     exists k mk, (k < perPoint)%nat /\
       evaluate assets (candidate assets rand (base + k)) = Ok mk /\
       bestWeights = candidate assets rand (base + k) /\
       bestVolatility = volatility mk /\
       withinTolerance mk target = true /\
       (forall j mj, (j < k)%nat ->
          evaluate assets (candidate assets rand (base + j)) = Ok mj ->
          withinTolerance mj target = true ->
          (volatility mj <=? volatility mk) = false)).
Proof.
  intros Hne.
  destruct (frontier_inner_total assets rand target perPoint 0%nat
              ((base * length assets)%nat, infinity, []) Hne) as [[[pos bv] bw] Hst].
  exists pos, bv, bw. split; [exact Hst|].
  apply (forM_inv (lowestSoFar assets rand target base) _ perPoint 0) in Hst.
  - destruct Hst as (_ & Hmin & Hkept). split; assumption.
  - split; [rewrite Nat.add_0_r; reflexivity|]. split; [intros; lia|].
    left. split; reflexivity.
  - intros i s s' _ Hs Hstep. eapply lowestSoFar_step; eassumption.
Qed.

(** The theorem at a concrete input. *)
Lemma frontier_search_witness :
  exists pos bestVolatility bestWeights,
    forM 0 3 (frontierStep sampleAssets sampleRandom 0.3)
      ((0 * length sampleAssets)%nat, infinity, []) = Ok (pos, bestVolatility, bestWeights) /\
    (forall j mj, (j < 3)%nat ->
       evaluate sampleAssets (candidate sampleAssets sampleRandom (0 + j)) = Ok mj ->
       withinTolerance mj 0.3 = true ->
       (volatility mj <? bestVolatility) = false).
Proof.
  destruct (frontier_search_keeps_lowest_volatility 3 sampleAssets sampleRandom 0.3 0)
    as (pos & bv & bw & H1 & H2 & _).
  - discriminate.
  - exists pos, bv, bw. split; assumption.
Defined.
